(** * A rejection sampler over NumPy: embedding and verification

    The program is [sampler/sampler.py]: a class [RejectionSampler] holding
    three callables (proposal sampler, proposal log-density, target
    log-density) and the most recent sample buffer, with two methods,
    [draw] (the accept/reject loop, [while True]) and [sample] (a batch of
    [n] draws stored in a NumPy array whose shape is read off the first
    draw), and a third, [plot], that draws the stored buffer and the two
    densities on a Matplotlib axes object.

    The loop of [draw] has no bound and every quantity it tests comes from
    a call out of the class (the three callables, [np.exp], [np.log],
    [np.random.uniform]).  The methods are therefore embedded as
    interaction trees: each outside call is an event answered by the
    environment, [while True] is [ITree.iter], and the few NumPy array
    operations the class relies on ([np.empty], indexed assignment with
    broadcasting) are pure functions returning either an exception or the
    new array.  Floating-point comparisons are those of IEEE-754 binary64
    (Rocq's primitive floats). *)

From Stdlib Require Import String ZArith List Floats Bool Lia.
From ITree Require Import ITree ITreeFacts Interp.Traces Props.Leaf
     Events.State Events.StateFacts.
Import ListNotations ITreeNotations.
Local Open Scope itree_scope.
Local Open Scope Z_scope.

(** * The program *)

(** ** Values and the NumPy fragment *)

(** A candidate is what a proposal sampler returns: a scalar, or a
    one-dimensional sequence of floats ([len] succeeds on it). *)
Inductive value : Type :=
| VScalar (f : float)
| VSeq (l : list float).

(** Python's [len(x)]: [None] stands for the [TypeError] raised on a
    scalar, which [sample] catches. *)
Definition py_len (x : value) : option nat :=
  match x with
  | VScalar _ => None
  | VSeq l => Some (length l)
  end.

(** The exceptions that can leave [sample]. *)
Inductive exn : Type :=
| ValueError
| IndexError
| TypeError.

(** A slot of an array: [np.empty] leaves its memory uninitialised, which
    [None] stands for; [Some f] is a slot that has been assigned. *)
Definition cell : Type := option float.

(** The arrays [sample] builds: shape [(n,)] or shape [(n, d)]. *)
Inductive ndarray : Type :=
| Arr1 (cells : list cell)
| Arr2 (d : nat) (rows : list (list cell)).

(** [a.shape], as the list of its dimensions. *)
Definition shape (a : ndarray) : list nat :=
  match a with
  | Arr1 cells => [length cells]
  | Arr2 d rows => [length rows; d]
  end.

(** [len(a)]: the length along the first axis. *)
Definition first_axis (a : ndarray) : nat :=
  match a with
  | Arr1 cells => length cells
  | Arr2 _ rows => length rows
  end.

(** What [a[i]] holds: one slot of a 1-D array, one row of a 2-D array. *)
Inductive item : Type :=
| ICell (c : cell)
| IRow (r : list cell).

Definition getitem (a : ndarray) (i : nat) : option item :=
  match a with
  | Arr1 cells => option_map ICell (nth_error cells i)
  | Arr2 _ rows => option_map IRow (nth_error rows i)
  end.

(** [np.empty(n)]: a negative dimension is a [ValueError]. *)
Definition np_empty (n : Z) : exn + ndarray :=
  if n <? 0 then inl ValueError
  else inr (Arr1 (repeat None (Z.to_nat n))).

(** [np.empty((n, d))], with [d] a length. *)
Definition np_empty2 (n : Z) (d : nat) : exn + ndarray :=
  if n <? 0 then inl ValueError
  else inr (Arr2 d (repeat (repeat None d) (Z.to_nat n))).

(** An index along an axis of length [len]: negative indices count from
    the end; [None] is NumPy's [IndexError]. *)
Definition normalize_index (i : Z) (len : nat) : option nat :=
  let j := if i <? 0 then i + Z.of_nat len else i in
  if (0 <=? j) && (j <? Z.of_nat len) then Some (Z.to_nat j) else None.

(** Replace position [i] of a list (stays within the list). *)
Fixpoint list_set {A : Type} (l : list A) (i : nat) (a : A) : list A :=
  match l, i with
  | [], _ => []
  | _ :: t, O => a :: t
  | h :: t, S i' => h :: list_set t i' a
  end.

Section Numpy.

(** Whether NumPy converts a sequence of exactly one element that is
    assigned to a scalar slot.  It does for a one-element [ndarray] and
    refuses a one-element list or tuple, so it is left open here. *)
Variable size_one_converts : bool.

(** The slot written by [a[i] = x] when [a] has shape [(n,)]; [None] is
    "setting an array element with a sequence". *)
Definition as_cell (x : value) : option cell :=
  match x with
  | VScalar f => Some (Some f)
  | VSeq [f] => if size_one_converts then Some (Some f) else None
  | VSeq _ => None
  end.

(** The row written by [a[i] = x] when [a] has shape [(n, d)]: [x] is
    broadcast to shape [(d,)].  A scalar and a one-element sequence are
    repeated [d] times; any other length but [d] cannot be broadcast. *)
Definition as_row (d : nat) (x : value) : option (list cell) :=
  match x with
  | VScalar f => Some (repeat (Some f) d)
  | VSeq l =>
      if Nat.eqb (length l) d then Some (List.map Some l)
      else match l with
           | [f] => Some (repeat (Some f) d)
           | _ => None
           end
  end.

(** [a[i] = x]: the index is resolved first, then the value is
    converted; a failure leaves [a] as it was. *)
Definition np_setitem (a : ndarray) (i : Z) (x : value) : exn + ndarray :=
  match normalize_index i (first_axis a) with
  | None => inl IndexError
  | Some j =>
      match a with
      | Arr1 cells =>
          match as_cell x with
          | Some c => inr (Arr1 (list_set cells j c))
          | None => inl ValueError
          end
      | Arr2 d rows =>
          match as_row d x with
          | Some r => inr (Arr2 d (list_set rows j r))
          | None => inl ValueError
          end
      end
  end.

End Numpy.

(** [xrange(a, b)]. *)
Definition xrange (a b : Z) : list Z :=
  List.map (fun k => a + Z.of_nat k) (seq 0 (Z.to_nat (b - a))).

(** ** The calls out of the class *)

(** A callable held by the sampler is known by its name. *)
Definition callable : Type := string.

Bind Scope string_scope with callable.

Variant samplerE : Type -> Type :=
| CallSampler (f : callable) : samplerE value
    (* [f()], a proposal sampler *)
| CallLogpdf (f : callable) (x : value) : samplerE float
    (* [f(x)], a log-density *)
| NpExp (u : float) : samplerE float
| NpRandomUniform (low high : float) : samplerE float
| NpLog (t : float) : samplerE float
| NpRandomSeed (s : Z) : samplerE unit.

(** [MIN = np.log(np.finfo('float64').tiny)]: the logarithm of the
    smallest positive normal double 0x1p-1022, which is the double
    -708.3964185322641. *)
Definition MIN : float := (-0x1.6232bdd7abcd2p+9)%float.

Arguments MIN : simpl never.

(** ** The class *)

Record RejectionSampler : Type := mkSampler {
  propose_func : callable;
  propose_logpdf : callable;
  target_logpdf : callable;
  samples : option ndarray
}.

(** [__init__]. *)
Definition init (propose_func propose_logpdf target_logpdf : callable)
  : RejectionSampler :=
  mkSampler propose_func propose_logpdf target_logpdf None.

(** [self.samples = a]. *)
Definition set_samples (self : RejectionSampler) (a : option ndarray)
  : RejectionSampler :=
  mkSampler (propose_func self) (propose_logpdf self) (target_logpdf self) a.

(** One turn of the loop of [draw]: [inr x] is [break] with the candidate
    [x], [inl tt] goes round again. *)
Definition draw_body (self : RejectionSampler) : itree samplerE (unit + value) :=
  candidate_sample <- ITree.trigger (CallSampler (propose_func self));;
  upper <- ITree.trigger (CallLogpdf (propose_logpdf self) candidate_sample);;
  if (MIN <=? upper)%float then
    e <- ITree.trigger (NpExp upper);;
    threshold <- ITree.trigger (NpRandomUniform 0 e);;
    log_threshold <- ITree.trigger (NpLog threshold);;
    v <- ITree.trigger (CallLogpdf (target_logpdf self) candidate_sample);;
    if (log_threshold <? v)%float then Ret (inr candidate_sample)
    else Ret (inl tt)
  else Ret (inl tt).

(** [draw]: [while True] around the body. *)
Definition draw (self : RejectionSampler) : itree samplerE value :=
  ITree.iter (fun _ : unit => draw_body self) tt.

Section Sample.

Variable size_one_converts : bool.

(** [self.samples[i] = x]. *)
Definition setitem_samples (self : RejectionSampler) (i : Z) (x : value)
  : exn + RejectionSampler :=
  match samples self with
  | None => inl TypeError
  | Some a =>
      match np_setitem size_one_converts a i x with
      | inl e => inl e
      | inr a' => inr (set_samples self (Some a'))
      end
  end.

(** [for i in idxs: self.samples[i] = self.draw()].  The result is the
    sampler as the loop leaves it, and the exception if one was raised. *)
Fixpoint sample_loop (self : RejectionSampler) (idxs : list Z)
  : itree samplerE (RejectionSampler * option exn) :=
  match idxs with
  | [] => Ret (self, None)
  | i :: rest =>
      x <- draw self;;
      match setitem_samples self i x with
      | inl e => Ret (self, Some e)
      | inr self' => sample_loop self' rest
      end
  end.

(** The buffer allocated from the first draw (the [try] / [except
    TypeError] / [else] statement). *)
Definition allocate (n : Z) (first : value) : exn + ndarray :=
  match py_len first with
  | None => np_empty n
  | Some d => np_empty2 n d
  end.

(** [sample(n, seed)].  The result pairs the sampler as the call leaves
    it with either the exception raised or the returned
    [self.samples]. *)
Definition sample (self : RejectionSampler) (n : Z) (seed : option Z)
  : itree samplerE (RejectionSampler * (exn + option ndarray)) :=
  match seed with
  | Some s => ITree.trigger (NpRandomSeed s)
  | None => Ret tt
  end;;
  first <- draw self;;
  match allocate n first with
  | inl e => Ret (self, inl e)
  | inr a =>
      let self := set_samples self (Some a) in
      match setitem_samples self 0 first with
      | inl e => Ret (self, inl e)
      | inr self =>
          r <- sample_loop self (xrange 1 n);;
          match r with
          | (self, Some e) => Ret (self, inl e)
          | (self, None) => Ret (self, inr (samples self))
          end
      end
  end.

End Sample.

(** ** [plot] *)

(** The calls [plot] makes besides those to the two log-densities: NumPy
    on whole arrays, and the methods of the [axes] object it is given
    (their keyword arguments are the fields; their results are ignored). *)
Variant plotE : Type -> Type :=
| NpLinspace (start stop : float) (num : Z) : plotE (list float)
| NpExpArray (ys : list float) : plotE (list float)
    (* [np.exp(np.array(ys))] *)
| AxesHist (x : ndarray) (bins : Z) (color label : string) (normed : bool)
    (edgecolor : string) : plotE unit
| AxesPlot (xs ys : list float) (fmt : string) (linewidth : Z)
    (label : string) : plotE unit
| AxesLegend (loc : string) : plotE unit
| AxesSetXlabel (xlabel : string) : plotE unit
| AxesSetYlabel (ylabel : string) : plotE unit
| AxesSetXlim (left right : float) : plotE unit
| AxesSetYlim (bottom top : float) : plotE unit.

(** [a.ndim]. *)
Definition ndim (a : ndarray) : nat := length (shape a).

(** [a.ndim == 2 and a.shape[1] > 1]; [and] does not evaluate
    [a.shape[1]] on a one-dimensional array. *)
Definition more_than_one_column (a : ndarray) : bool :=
  (ndim a =? 2)%nat && (1 <? nth 1 (shape a) 0)%nat.

(** An exception with its message. *)
Definition raised : Type := exn * string.

Definition no_samples_yet : raised :=
  (ValueError, "no samples yet, please call `sample` first"%string).

Definition too_many_dimensions : raised :=
  (ValueError, "visualization for dimensions great than 1 not supported"%string).

(** [[f(x) for x in xs]]. *)
Fixpoint logpdf_each (f : callable) (xs : list float)
  : itree (samplerE +' plotE) (list float) :=
  match xs with
  | [] => Ret []
  | x :: xs' =>
      y <- ITree.trigger (inl1 (CallLogpdf f (VScalar x)));;
      ys <- logpdf_each f xs';;
      Ret (y :: ys)
  end.

(** [plot(axes, x_min, x_max, y_max)]: the calls are those on [axes] and
    on NumPy; the literal [0] of [set_ylim(0, y_max)] is the float zero. *)
Definition plot (self : RejectionSampler) (x_min x_max y_max : float)
  : itree (samplerE +' plotE) (raised + unit) :=
  match samples self with
  | None => Ret (inl no_samples_yet)
  | Some a =>
      if more_than_one_column a then Ret (inl too_many_dimensions)
      else
        X <- ITree.trigger (inr1 (NpLinspace x_min x_max 1000));;
        Yp0 <- logpdf_each (propose_logpdf self) X;;
        Yp <- ITree.trigger (inr1 (NpExpArray Yp0));;
        Yt0 <- logpdf_each (target_logpdf self) X;;
        Yt <- ITree.trigger (inr1 (NpExpArray Yt0));;
        ITree.trigger
          (inr1 (AxesHist a 100 "#999999" "samples" true "#999999"));;
        ITree.trigger (inr1 (AxesPlot X Yp "r-" 2 "proposal"));;
        ITree.trigger (inr1 (AxesPlot X Yt "b-" 2 "target"));;
        ITree.trigger (inr1 (AxesLegend "upper right"));;
        ITree.trigger (inr1 (AxesSetXlabel "x"));;
        ITree.trigger (inr1 (AxesSetYlabel "p(x)"));;
        ITree.trigger (inr1 (AxesSetXlim x_min x_max));;
        ITree.trigger (inr1 (AxesSetYlim 0 y_max));;
        Ret (inr tt)
  end.

(** * The vocabulary of the statements *)

(** ** Terminating executions and their call logs *)

(** [Event e x]: the call [e] answered with [x]. *)
#[local] Arguments Event {E X} _ _.

(** [exec t log r]: the tree [t] runs to completion with result [r] when
    the environment answers its calls as [log] records them, in order. *)
Inductive exec {E : Type -> Type} {R : Type}
  : itree E R -> list (event E) -> R -> Prop :=
| exec_ret t r :
    observe t = RetF r -> exec t [] r
| exec_tau t u log r :
    observe t = TauF u -> exec u log r -> exec t log r
| exec_vis X (e : E X) (x : X) t k log r :
    observe t = VisF e k -> exec (k x) log r ->
    exec t (Event e x :: log) r.

(** The same execution as a trace of the ITree library. *)
Fixpoint trace_of {E : Type -> Type} {R : Type}
  (log : list (event E)) (r : R) : @trace E R :=
  match log with
  | [] => TRet r
  | Event e x :: log' => TEventResponse e x (trace_of log' r)
  end.

(** ** The turns of the loop of [draw] *)

(** What the environment answered during one turn: the candidate and its
    proposal log-density, and, when the turn went on to the test, the
    answers of [np.exp], [np.random.uniform], [np.log] and of the target
    log-density. *)
Inductive attempt : Type :=
| Skipped (x : value) (upper : float)
| Tested (x : value) (upper e threshold log_threshold v : float).

Definition candidate (a : attempt) : value :=
  match a with
  | Skipped x _ => x
  | Tested x _ _ _ _ _ => x
  end.

(** The turn took the branch its [upper] selects under [upper >= MIN]. *)
Definition guard_ok (a : attempt) : bool :=
  match a with
  | Skipped _ upper => negb (MIN <=? upper)%float
  | Tested _ upper _ _ _ _ => (MIN <=? upper)%float
  end.

(** The turn ended in [break]. *)
Definition accepted (a : attempt) : bool :=
  match a with
  | Skipped _ _ => false
  | Tested _ _ _ _ log_threshold v => (log_threshold <? v)%float
  end.

Definition attempt_result (a : attempt) : unit + value :=
  if accepted a then inr (candidate a) else inl tt.

(** The calls of the turn, in order, with their answers. *)
Definition attempt_log (self : RejectionSampler) (a : attempt)
  : list (event samplerE) :=
  match a with
  | Skipped x upper =>
      [Event (CallSampler (propose_func self)) x;
       Event (CallLogpdf (propose_logpdf self) x) upper]
  | Tested x upper e threshold log_threshold v =>
      [Event (CallSampler (propose_func self)) x;
       Event (CallLogpdf (propose_logpdf self) x) upper;
       Event (NpExp upper) e;
       Event (NpRandomUniform 0 e) threshold;
       Event (NpLog threshold) log_threshold;
       Event (CallLogpdf (target_logpdf self) x) v]
  end.

(** A turn that goes round again. *)
Definition rejected (a : attempt) : Prop :=
  guard_ok a = true /\ accepted a = false.

(** ** The draws of [sample] and what its log contains *)

(** [draw] only reads the three callables of the sampler. *)
Definition same_callables (s1 s2 : RejectionSampler) : Prop :=
  propose_func s1 = propose_func s2 /\
  propose_logpdf s1 = propose_logpdf s2 /\
  target_logpdf s1 = target_logpdf s2.

(** A completed call of [draw] as [sample] sees it: its call log and the
    value it returned. *)
Definition drawn : Type := list (event samplerE) * value.

Definition draws_of (self : RejectionSampler) (ds : list drawn) : Prop :=
  Forall (fun d => exec (draw self) (fst d) (snd d)) ds.

Definition draws_log (ds : list drawn) : list (event samplerE) :=
  flat_map fst ds.

Definition seed_log (seed : option Z) : list (event samplerE) :=
  match seed with
  | Some s => [Event (NpRandomSeed s) tt]
  | None => []
  end.


(** A call of [np.random.seed]. *)
Definition is_seed_call (ev : event samplerE) : bool :=
  match ev with
  | Event e _ =>
      match e with
      | NpRandomSeed _ => true
      | _ => false
      end
  end.

(** The answer recorded by an entry of a log, by its type. *)
Definition answer_value (ev : event samplerE) : option value :=
  match ev with
  | Event e x =>
      match e in samplerE X return X -> option value with
      | CallSampler _ => fun x => Some x
      | _ => fun _ => None
      end x
  end.

Definition answer_float (ev : event samplerE) : option float :=
  match ev with
  | Event e x =>
      match e in samplerE X return X -> option float with
      | CallLogpdf _ _ | NpExp _ | NpRandomUniform _ _ | NpLog _ =>
          fun x => Some x
      | _ => fun _ => None
      end x
  end.

(** ** [sample] replayed on the values drawn *)

Section Replay.

Variable size_one_converts : bool.

(** The loop of [sample] replayed on the values its draws returned:
    [None] when the loop would make another number of draws. *)
Fixpoint loop_replay (self : RejectionSampler) (idxs : list Z)
  (xs : list value) : option (RejectionSampler * option exn) :=
  match idxs, xs with
  | [], [] => Some (self, None)
  | [], _ :: _ => None
  | _ :: _, [] => None
  | i :: rest, x :: xs' =>
      match setitem_samples size_one_converts self i x with
      | inl e =>
          match xs' with
          | [] => Some (self, Some e)
          | _ :: _ => None
          end
      | inr self' => loop_replay self' rest xs'
      end
  end.

(** [sample] replayed on the values its draws returned. *)
Definition sample_replay (self : RejectionSampler) (n : Z)
  (xs : list value) : option (RejectionSampler * (exn + option ndarray)) :=
  match xs with
  | [] => None
  | first :: xs' =>
      match allocate n first with
      | inl e =>
          match xs' with
          | [] => Some (self, inl e)
          | _ :: _ => None
          end
      | inr a =>
          let self := set_samples self (Some a) in
          match setitem_samples size_one_converts self 0 first with
          | inl e =>
              match xs' with
              | [] => Some (self, inl e)
              | _ :: _ => None
              end
          | inr self =>
              match loop_replay self (xrange 1 n) xs' with
              | Some (self, Some e) => Some (self, inl e)
              | Some (self, None) => Some (self, inr (samples self))
              | None => None
              end
          end
      end
  end.

(** The item that [a[i] = x] writes into an array of the shape of [a];
    [None] when [x] cannot be converted to that shape. *)
Definition stored (a : ndarray) (x : value) : option item :=
  match a with
  | Arr1 _ => option_map ICell (as_cell size_one_converts x)
  | Arr2 d _ => option_map IRow (as_row d x)
  end.

(** An item as [np.empty] leaves it. *)
Definition blank (a : ndarray) : item :=
  match a with
  | Arr1 _ => ICell None
  | Arr2 d _ => IRow (repeat None d)
  end.

(** Whether a later draw [x] can be stored in the buffer allocated from
    the first draw. *)
Definition fits (first x : value) : bool :=
  match first with
  | VScalar _ =>
      match as_cell size_one_converts x with Some _ => true | None => false end
  | VSeq l =>
      match as_row (length l) x with Some _ => true | None => false end
  end.

End Replay.

(** The buffer allocated from the first draw. *)
Definition first_shape (n : Z) (first : value) : list nat :=
  match first with
  | VScalar _ => [Z.to_nat n]
  | VSeq l => [Z.to_nat n; length l]
  end.

(** The first draw as an item of the buffer allocated from it. *)
Definition first_item (first : value) : item :=
  match first with
  | VScalar f => ICell (Some f)
  | VSeq l => IRow (List.map Some l)
  end.

(** ** A deterministic environment *)

Section SeededEnv.

(** One generator state, which [np.random.seed] resets and on which
    [np.random.uniform] and the callables of the sampler run; [np.exp]
    and [np.log] are functions. *)
Variable G : Type.
Variable seed_state : Z -> G.
Variable uniform : float -> float -> G -> G * float.
Variable call_sampler : callable -> G -> G * value.
Variable call_logpdf : callable -> value -> G -> G * float.
Variable np_exp : float -> float.
Variable np_log : float -> float.

(** The answers of this environment to the calls of the class. *)
Definition seeded_env : samplerE ~> Monads.stateT G (itree void1) :=
  fun _ e g =>
    match e with
    | CallSampler f => Ret (call_sampler f g)
    | CallLogpdf f x => Ret (call_logpdf f x g)
    | NpExp u => Ret (g, np_exp u)
    | NpRandomUniform low high => Ret (uniform low high g)
    | NpLog t => Ret (g, np_log t)
    | NpRandomSeed s => Ret (seed_state s, tt)
    end.

(** Two outcomes agree: same generator state afterwards, same exception or
    same returned buffer. *)
Definition same_outcome
  (o1 o2 : G * (RejectionSampler * (exn + option ndarray))) : Prop :=
  fst o1 = fst o2 /\ snd (snd o1) = snd (snd o2).

End SeededEnv.

Arguments seeded_env {G} _ _ _ _ _ _ _ _ _.
Arguments same_outcome {G} _ _.

(** ** Concrete runs *)

(** A sampler over three named callables, as [__init__] leaves it. *)
Definition s0 : RejectionSampler := init "q_sample" "q_logpdf" "p_logpdf".

(** The same sampler holding a buffer from an earlier batch. *)
Definition old_buffer : ndarray := Arr1 [Some 0x1p-2%float; Some 0x1.8p-1%float].

Definition s_old : RejectionSampler := set_samples s0 (Some old_buffer).

(** A turn on the scalar 0.5 with [log q = 0]: [np.exp(0.0) = 1.0], the
    uniform draw is 0.5, [np.log(0.5) = -0.6931471805599453], and
    [log p = 0], so the candidate is accepted. *)
Definition turn_half : attempt :=
  Tested (VScalar 0x1p-1) 0 0x1p+0 0x1p-1 (-0x1.62e42fefa39efp-1) 0.

(** The same answers for a candidate that is the pair [1.0, 2.0]. *)
Definition turn_pair : attempt :=
  Tested (VSeq [0x1p+0; 0x1p+1]%float) 0 0x1p+0 0x1p-1 (-0x1.62e42fefa39efp-1) 0.

(** And for the scalar candidate 3.0. *)
Definition turn_three : attempt :=
  Tested (VScalar 0x1.8p+1) 0 0x1p+0 0x1p-1 (-0x1.62e42fefa39efp-1) 0.

(** A turn whose proposal log-density is exactly [MIN], for a target equal
    to the proposal: [np.exp(MIN) = 2.2250738585072626e-308], the uniform
    draw is half of it, whose logarithm is -709.089565712824. *)
Definition turn_floor : attempt :=
  Tested (VScalar 0x1p-1) MIN 0x1.000000000007cp-1022 0x1.000000000007cp-1023
    (-0x1.628b76e3a7b6p+9) MIN.

(** The calls of the accepted turn [turn_half] on the sampler [s0]. *)
Definition log_half : list (event samplerE) :=
  [Event (CallSampler "q_sample") (VScalar 0x1p-1);
   Event (CallLogpdf "q_logpdf" (VScalar 0x1p-1)) 0%float;
   Event (NpExp 0) 0x1p+0%float;
   Event (NpRandomUniform 0 0x1p+0) 0x1p-1%float;
   Event (NpLog 0x1p-1) (-0x1.62e42fefa39efp-1)%float;
   Event (CallLogpdf "p_logpdf" (VScalar 0x1p-1)) 0%float].

(** The calls of the accepted turns [turn_pair] and [turn_three] on [s0]. *)
Definition log_pair : list (event samplerE) :=
  [Event (CallSampler "q_sample") (VSeq [0x1p+0; 0x1p+1]%float);
   Event (CallLogpdf "q_logpdf" (VSeq [0x1p+0; 0x1p+1]%float)) 0%float;
   Event (NpExp 0) 0x1p+0%float;
   Event (NpRandomUniform 0 0x1p+0) 0x1p-1%float;
   Event (NpLog 0x1p-1) (-0x1.62e42fefa39efp-1)%float;
   Event (CallLogpdf "p_logpdf" (VSeq [0x1p+0; 0x1p+1]%float)) 0%float].

Definition log_three : list (event samplerE) :=
  [Event (CallSampler "q_sample") (VScalar 0x1.8p+1);
   Event (CallLogpdf "q_logpdf" (VScalar 0x1.8p+1)) 0%float;
   Event (NpExp 0) 0x1p+0%float;
   Event (NpRandomUniform 0 0x1p+0) 0x1p-1%float;
   Event (NpLog 0x1p-1) (-0x1.62e42fefa39efp-1)%float;
   Event (CallLogpdf "p_logpdf" (VScalar 0x1.8p+1)) 0%float].

(** A sampler whose target log-density is its proposal log-density. *)
Definition s_same : RejectionSampler := init "q_sample" "q_logpdf" "q_logpdf".

(** ** The log of [plot] *)

(** The calls of [[f(x) for x in xs]] answered with [ys]. *)
Definition logpdf_each_log (f : callable) (xs ys : list float)
  : list (event (samplerE +' plotE)) :=
  List.map (fun p => Event (inl1 (CallLogpdf f (VScalar (fst p)))) (snd p))
           (combine xs ys).

(** The calls of a [plot] that goes through, for the grid [X], the
    log-densities [Yp0] and [Yt0] on it and their exponentials [Yp] and
    [Yt]. *)
Definition plot_log (self : RejectionSampler) (a : ndarray)
  (x_min x_max y_max : float) (X Yp0 Yp Yt0 Yt : list float)
  : list (event (samplerE +' plotE)) :=
  [Event (inr1 (NpLinspace x_min x_max 1000)) X] ++
  logpdf_each_log (propose_logpdf self) X Yp0 ++
  [Event (inr1 (NpExpArray Yp0)) Yp] ++
  logpdf_each_log (target_logpdf self) X Yt0 ++
  [Event (inr1 (NpExpArray Yt0)) Yt;
   Event (inr1 (AxesHist a 100 "#999999" "samples" true "#999999")) tt;
   Event (inr1 (AxesPlot X Yp "r-" 2 "proposal")) tt;
   Event (inr1 (AxesPlot X Yt "b-" 2 "target")) tt;
   Event (inr1 (AxesLegend "upper right")) tt;
   Event (inr1 (AxesSetXlabel "x")) tt;
   Event (inr1 (AxesSetYlabel "p(x)")) tt;
   Event (inr1 (AxesSetXlim x_min x_max)) tt;
   Event (inr1 (AxesSetYlim 0 y_max)) tt].

(** ** Items that have been assigned *)

(** The slot holds a value that was stored, not the memory [np.empty]
    left. *)
Definition assigned (c : cell) : bool :=
  match c with
  | Some _ => true
  | None => false
  end.

Definition filled (it : item) : bool :=
  match it with
  | ICell c => assigned c
  | IRow r => forallb assigned r
  end.

(** The item has the form of an item of [a]: a slot of a 1-D array, a row
    of the width of a 2-D array. *)
Definition item_of (a : ndarray) (it : item) : bool :=
  match a, it with
  | Arr1 _, ICell _ => true
  | Arr2 d _, IRow r => (length r =? d)%nat
  | _, _ => false
  end.

(** A first draw from which [sample] allocates a buffer with more than one
    column. *)
Definition wide (first : value) : bool :=
  match first with
  | VScalar _ => false
  | VSeq l => (1 <? length l)%nat
  end.

(** ** Counting the calls of a log *)

Inductive call_kind : Type :=
| KSampler
| KLogpdf
| KExp
| KUniform
| KLog
| KSeed.

Definition kind_of (ev : event samplerE) : call_kind :=
  match ev with
  | Event e _ =>
      match e with
      | CallSampler _ => KSampler
      | CallLogpdf _ _ => KLogpdf
      | NpExp _ => KExp
      | NpRandomUniform _ _ => KUniform
      | NpLog _ => KLog
      | NpRandomSeed _ => KSeed
      end
  end.

Definition call_kind_eqb (k1 k2 : call_kind) : bool :=
  match k1, k2 with
  | KSampler, KSampler | KLogpdf, KLogpdf | KExp, KExp
  | KUniform, KUniform | KLog, KLog | KSeed, KSeed => true
  | _, _ => false
  end.

(** The number of calls of kind [k] in [log]. *)
Definition count_calls (k : call_kind) (log : list (event samplerE)) : nat :=
  length (filter (fun ev => call_kind_eqb (kind_of ev) k) log).

(** The interval an entry of a log asks [np.random.uniform] for, when it
    is such a call. *)
Definition uniform_bounds (ev : event samplerE) : option (float * float) :=
  match ev with
  | Event e _ =>
      match e with
      | NpRandomUniform low high => Some (low, high)
      | _ => None
      end
  end.

(** ** What [plot] calls *)

(** The only calls [plot] makes to the callables of the sampler: a
    log-density held by [self], at a scalar. *)
Definition plot_call_ok (self : RejectionSampler)
  (ev : event (samplerE +' plotE)) : Prop :=
  match ev with
  | Event e _ =>
      match e with
      | inl1 c =>
          match c with
          | CallLogpdf f (VScalar _) =>
              f = propose_logpdf self \/ f = target_logpdf self
          | _ => False
          end
      | inr1 _ => True
      end
  end.

(** ** [draw] and [sample] run in a deterministic environment *)

Section SeededRun.

Variable G : Type.
Variable seed_state : Z -> G.
Variable uniform : float -> float -> G -> G * float.
Variable call_sampler : callable -> G -> G * value.
Variable call_logpdf : callable -> value -> G -> G * float.
Variable np_exp : float -> float.
Variable np_log : float -> float.

(** One turn of the loop of [draw] from the generator state [g]. *)
Definition env_turn (self : RejectionSampler) (g : G) : G * (unit + value) :=
  let (g1, candidate_sample) := call_sampler (propose_func self) g in
  let (g2, upper) := call_logpdf (propose_logpdf self) candidate_sample g1 in
  if (MIN <=? upper)%float then
    let e := np_exp upper in
    let (g3, threshold) := uniform 0%float e g2 in
    let log_threshold := np_log threshold in
    let (g4, v) := call_logpdf (target_logpdf self) candidate_sample g3 in
    if (log_threshold <? v)%float then (g4, inr candidate_sample)
    else (g4, inl tt)
  else (g2, inl tt).

(** [draw] cut off after [fuel] turns: [None] when none of them accepted. *)
Fixpoint env_draw (fuel : nat) (self : RejectionSampler) (g : G)
  : option (G * value) :=
  match fuel with
  | O => None
  | S fuel' =>
      match env_turn self g with
      | (g', inr x) => Some (g', x)
      | (g', inl _) => env_draw fuel' self g'
      end
  end.

Variable size_one_converts : bool.

(** The loop of [sample], each draw cut off after [fuel] turns. *)
Fixpoint env_sample_loop (fuel : nat) (self : RejectionSampler)
  (idxs : list Z) (g : G) : option (G * (RejectionSampler * option exn)) :=
  match idxs with
  | [] => Some (g, (self, None))
  | i :: rest =>
      match env_draw fuel self g with
      | None => None
      | Some (g', x) =>
          match setitem_samples size_one_converts self i x with
          | inl e => Some (g', (self, Some e))
          | inr self' => env_sample_loop fuel self' rest g'
          end
      end
  end.

(** [sample(n, seed)], each draw cut off after [fuel] turns. *)
Definition env_sample (fuel : nat) (self : RejectionSampler) (n : Z)
  (seed : option Z) (g : G)
  : option (G * (RejectionSampler * (exn + option ndarray))) :=
  let g :=
    match seed with
    | Some s => seed_state s
    | None => g
    end in
  match env_draw fuel self g with
  | None => None
  | Some (g, first) =>
      match allocate n first with
      | inl e => Some (g, (self, inl e))
      | inr a =>
          let self := set_samples self (Some a) in
          match setitem_samples size_one_converts self 0 first with
          | inl e => Some (g, (self, inl e))
          | inr self =>
              match env_sample_loop fuel self (xrange 1 n) g with
              | None => None
              | Some (g, (self, Some e)) => Some (g, (self, inl e))
              | Some (g, (self, None)) => Some (g, (self, inr (samples self)))
              end
          end
      end
  end.

End SeededRun.

Arguments env_turn {G} _ _ _ _ _ _ _.
Arguments env_draw {G} _ _ _ _ _ _ _ _.
Arguments env_sample_loop {G} _ _ _ _ _ _ _ _ _ _.
Arguments env_sample {G} _ _ _ _ _ _ _ _ _ _ _ _.

(** ** Concrete environments *)

(** An environment whose generator state counts the uniform draws: the
    proposal always returns 0.5 with [log q = log p = 0], [np.exp]
    answers 1.0, every uniform draw is 0.5 and [np.log] answers
    -0.6931471805599453. *)
Definition env_accepting
  : samplerE ~> Monads.stateT nat (itree void1) :=
  seeded_env (fun _ => O) (fun _ _ g => (S g, 0x1p-1%float))
    (fun _ g => (g, VScalar 0x1p-1)) (fun _ _ g => (g, 0%float))
    (fun _ => 0x1p+0%float) (fun _ => (-0x1.62e42fefa39efp-1)%float).

(** The same environment with a proposal log-density that is minus
    infinity everywhere. *)
Definition env_below_floor
  : samplerE ~> Monads.stateT nat (itree void1) :=
  seeded_env (fun _ => O) (fun _ _ g => (S g, 0x1p-1%float))
    (fun _ g => (g, VScalar 0x1p-1)) (fun _ _ g => (g, neg_infinity))
    (fun _ => 0x1p+0%float) (fun _ => (-0x1.62e42fefa39efp-1)%float).

(** ** Turns that went on to the test *)

Definition went_to_test (a : attempt) : bool :=
  match a with
  | Skipped _ _ => false
  | Tested _ _ _ _ _ _ => true
  end.

Definition tested_turns (turns : list attempt) : nat :=
  length (filter went_to_test turns).

(** * Lemmas *)

(** ** Executions *)

Section Exec.

Context {E : Type -> Type}.

Lemma exec_Ret {R} (r : R) : exec (Ret r : itree E R) [] r.
Proof. now apply exec_ret. Qed.

Lemma exec_Tau {R} (t : itree E R) log r : exec t log r -> exec (Tau t) log r.
Proof. intros H. eapply exec_tau; [reflexivity | exact H]. Qed.

Lemma exec_Vis {X R} (e : E X) (k : X -> itree E R) x log r :
  exec (k x) log r -> exec (Vis e k) (Event e x :: log) r.
Proof. intros H. eapply exec_vis; [reflexivity | exact H]. Qed.

(** Executions only look at [observe t]. *)
Lemma exec_observe {R} (t u : itree E R) log r :
  observe t = observe u -> exec t log r -> exec u log r.
Proof.
  intros Hobs H. destruct H as [t r Ht | t v log r Ht Hv | X e x t k log r Ht Hk].
  - apply exec_ret. congruence.
  - eapply exec_tau; [| exact Hv]. congruence.
  - eapply exec_vis; [| exact Hk]. congruence.
Qed.

Lemma exec_Ret_inv {R} (r r' : R) log :
  exec (Ret r : itree E R) log r' -> log = [] /\ r' = r.
Proof.
  intros H. inversion H; subst; cbn in *; try discriminate.
  split; [reflexivity | congruence].
Qed.

Lemma exec_Tau_inv {R} (t : itree E R) log r :
  exec (Tau t) log r -> exec t log r.
Proof.
  intros H. inversion H; subst; cbn in *; try discriminate.
  match goal with H0 : TauF _ = TauF _ |- _ => injection H0 as -> end.
  assumption.
Qed.

Lemma exec_Vis_inv {X R} (e : E X) (k : X -> itree E R) log r :
  exec (Vis e k) log r ->
  exists x log', log = Event e x :: log' /\ exec (k x) log' r.
Proof.
  intros H. inversion H; subst; cbn in *; try discriminate.
  inv_Vis. cbn in *; subst. eauto.
Qed.

Lemma exec_trigger {X} (e : E X) (x : X) :
  exec (ITree.trigger e) [Event e x] x.
Proof. apply exec_Vis, exec_Ret. Qed.

(** Sequencing: the log of [t >>= k] is the log of [t] followed by the
    log of the continuation. *)
Lemma exec_bind {R S} (t : itree E R) (k : R -> itree E S) log1 x log2 r :
  exec t log1 x -> exec (k x) log2 r ->
  exec (ITree.bind t k) (log1 ++ log2) r.
Proof.
  intros Ht Hk. induction Ht as [t x Ht | t u log x Ht Hu IH | X e y t h log x Ht Hh IH].
  - cbn [app]. eapply exec_observe; [| exact Hk].
    rewrite observe_bind, Ht. reflexivity.
  - eapply exec_tau; [| exact (IH Hk)]. rewrite observe_bind, Ht. reflexivity.
  - cbn [app]. eapply exec_vis with (k := fun y => ITree.bind (h y) k); [| exact (IH Hk)].
    rewrite observe_bind, Ht. reflexivity.
Qed.

Lemma exec_bind_inv_aux {S} (T : itree E S) log r :
  exec T log r ->
  forall R (t : itree E R) (k : R -> itree E S),
    observe T = observe (ITree.bind t k) ->
    exists log1 x log2,
      log = log1 ++ log2 /\ exec t log1 x /\ exec (k x) log2 r.
Proof.
  induction 1 as [T r HT | T u log r HT Hu IH | X e y T h log r HT Hh IH];
    intros R t k Hobs; rewrite observe_bind, HT in Hobs;
    destruct (observe t) as [x | t' | Y e' h'] eqn:Ht; cbn in Hobs.
  - exists [], x, []. repeat split; [now apply exec_ret | apply exec_ret; congruence].
  - discriminate.
  - discriminate.
  - exists [], x, log. repeat split; [now apply exec_ret |].
    eapply exec_tau; [symmetry; exact Hobs | exact Hu].
  - injection Hobs as ->.
    destruct (IH _ t' k eq_refl) as (log1 & x & log2 & -> & H1 & H2).
    exists log1, x, log2. repeat split; [| exact H2].
    eapply exec_tau; eassumption.
  - discriminate.
  - exists [], x, (Event e y :: log). repeat split; [now apply exec_ret |].
    eapply exec_vis; [symmetry; exact Hobs | exact Hh].
  - discriminate.
  - apply eq_inv_VisF_weak in Hobs. destruct Hobs as (p & He & Hk).
    destruct p. cbn in He, Hk. subst e' h.
    destruct (IH _ (h' y) k eq_refl) as (log1 & x & log2 & -> & H1 & H2).
    exists (Event e y :: log1), x, log2. repeat split; [| exact H2].
    eapply exec_vis; eassumption.
Qed.

Lemma exec_bind_inv {R S} (t : itree E R) (k : R -> itree E S) log r :
  exec (ITree.bind t k) log r ->
  exists log1 x log2,
    log = log1 ++ log2 /\ exec t log1 x /\ exec (k x) log2 r.
Proof. intros H. exact (exec_bind_inv_aux _ _ _ H _ t k eq_refl). Qed.

Lemma exec_trigger_inv {X} (e : E X) log (r : X) :
  exec (ITree.trigger e) log r -> log = [Event e r].
Proof.
  intros H. apply exec_Vis_inv in H as (x & log' & -> & H).
  apply exec_Ret_inv in H as [-> ->]. reflexivity.
Qed.

(** One unfolding of a loop. *)
Lemma exec_iter {I R} (body : I -> itree E (I + R)) (i : I) log r :
  exec (ITree.iter body i) log r <->
  exec (ITree.bind (body i)
          (fun lr => match lr with
                     | inl l => Tau (ITree.iter body l)
                     | inr r => Ret r
                     end)) log r.
Proof. split; apply exec_observe; reflexivity. Qed.

(** [exec] is the trace semantics of the ITree library, on the traces that
    end with a result. *)
Lemma exec_trace {R} (t : itree E R) log r :
  exec t log r <-> is_trace t (trace_of log r).
Proof.
  split.
  - induction 1 as [t r Ht | t u log r Ht Hu IH | X e y t h log r Ht Hh IH];
      unfold is_trace in *; rewrite Ht; cbn; constructor; assumption.
  - unfold is_trace. intros H.
    remember (observe t) as ot eqn:Hot. remember (trace_of log r) as tr eqn:Htr.
    revert t log Hot Htr.
    induction H as [ot | r0 | u tr H IH | X e k | X e x k tr H IH]; intros t log Hot Htr.
    + destruct log as [| [Y e y] log]; discriminate.
    + destruct log as [| [Y e y] log]; cbn in Htr; [| discriminate].
      injection Htr as ->. now apply exec_ret.
    + eapply exec_tau; [symmetry; exact Hot |]. now apply IH.
    + destruct log as [| [Y e' y] log]; discriminate.
    + destruct log as [| [Y e' y] log]; cbn in Htr; [discriminate |].
      apply eq_trace_inv in Htr. cbn in Htr. destruct Htr as (p & He & Hx & Htr).
      destruct p. cbn in He, Hx. subst.
      eapply exec_vis; [symmetry; exact Hot |]. now apply IH.
Qed.

(** Executions are invariant under weak bisimulation. *)
Lemma exec_eutt {R} (t u : itree E R) log r :
  t ≈ u -> exec t log r -> exec u log r.
Proof.
  intros Heq H. apply exec_trace. apply exec_trace in H.
  apply eutt_trace_eq in Heq. destruct Heq as [Hincl _]. now apply Hincl.
Qed.

(** The results of executions are the leaves of the tree. *)
Lemma exec_Leaf {R} (t : itree E R) log r : exec t log r -> Leaf r t.
Proof.
  induction 1 as [t r Ht | t u log r Ht Hu IH | X e y t h log r Ht Hh IH].
  - now apply LeafRet.
  - eapply LeafTau; eassumption.
  - eapply LeafVis; eassumption.
Qed.

Lemma Leaf_exec {R} (t : itree E R) r : Leaf r t -> exists log, exec t log r.
Proof.
  induction 1 as [t Ht | t u Ht Hu [log IH] | X e t k x Ht Hk [log IH]].
  - exists []. now apply exec_ret.
  - exists log. eapply exec_tau; eassumption.
  - exists (Event e x :: log). eapply exec_vis; eassumption.
Qed.

End Exec.

(** ** The executions of [draw] *)

Ltac exec_step H :=
  let x := fresh "x" in
  let l1 := fresh "log" in
  let l2 := fresh "log" in
  let H1 := fresh "Hcall" in
  apply exec_bind_inv in H as (l1 & x & l2 & -> & H1 & H);
  apply exec_trigger_inv in H1 as ->.

Ltac exec_call :=
  eapply (exec_bind _ _ [_] _ _); [apply exec_trigger |].

Lemma draw_body_exec self log r :
  exec (draw_body self) log r <->
  exists a, guard_ok a = true /\ log = attempt_log self a /\ r = attempt_result a.
Proof.
  unfold draw_body. split.
  - intros H. exec_step H. rename x into c. exec_step H. rename x into u.
    destruct (MIN <=? u)%float eqn:Hu.
    + exec_step H. rename x into e. exec_step H. rename x into t.
      exec_step H. rename x into l. exec_step H. rename x into v.
      exists (Tested c u e t l v). unfold attempt_result. cbn.
      destruct (l <? v)%float; apply exec_Ret_inv in H as [-> ->]; auto.
    + apply exec_Ret_inv in H as [-> ->].
      exists (Skipped c u). unfold attempt_result. cbn. rewrite Hu. auto.
  - intros (a & Hg & -> & ->). destruct a as [c u | c u e t l v]; cbn in Hg.
    + apply negb_true_iff in Hg.
      exec_call.
      exec_call.
      rewrite Hg. apply exec_Ret.
    + exec_call.
      exec_call.
      rewrite Hg.
      exec_call.
      exec_call.
      exec_call.
      exec_call.
      unfold attempt_result. cbn. destruct (l <? v)%float; apply exec_Ret.
Qed.

Lemma attempt_log_length self a : (2 <= length (attempt_log self a))%nat.
Proof. destruct a; cbn; lia. Qed.

(** One turn of [draw], then either the result or the loop again. *)
Lemma draw_unfold self log x :
  exec (draw self) log x <->
  exists a log', guard_ok a = true /\ log = attempt_log self a ++ log' /\
    if accepted a then log' = [] /\ x = candidate a
    else exec (draw self) log' x.
Proof.
  unfold draw at 1. rewrite exec_iter. split.
  - intros H. apply exec_bind_inv in H as (log1 & r & log2 & -> & Hb & H).
    apply draw_body_exec in Hb as (a & Hg & -> & ->).
    exists a, log2. split; [exact Hg | split; [reflexivity |]].
    unfold attempt_result in H. destruct (accepted a).
    + apply exec_Ret_inv in H as [-> ->]. auto.
    + apply exec_Tau_inv in H. exact H.
  - intros (a & log' & Hg & -> & H).
    apply exec_bind with (x := attempt_result a).
    + apply draw_body_exec. eauto.
    + unfold attempt_result. destruct (accepted a).
      * destruct H as [-> ->]. apply exec_Ret.
      * apply exec_Tau. exact H.
Qed.

(** The executions of [draw]: any number of rejected turns, then one
    accepted turn whose candidate is the result. *)
Lemma draw_exec self log x :
  exec (draw self) log x <->
  exists rej acc,
    log = flat_map (attempt_log self) rej ++ attempt_log self acc /\
    Forall rejected rej /\
    guard_ok acc = true /\ accepted acc = true /\ candidate acc = x.
Proof.
  split.
  - remember (length log) as m eqn:Hm. revert log Hm.
    induction m as [m IH] using lt_wf_ind. intros log Hm H.
    apply draw_unfold in H as (a & log' & Hg & -> & H).
    destruct (accepted a) eqn:Ha.
    + destruct H as [-> ->]. exists [], a. cbn. rewrite app_nil_r. auto.
    + pose proof (attempt_log_length self a) as Hlen.
      apply (IH (length log')) in H; [| rewrite Hm, length_app; lia | reflexivity].
      destruct H as (rej & acc & -> & Hrej & Hacc).
      exists (a :: rej), acc. cbn. rewrite app_assoc.
      split; [reflexivity | split; [| exact Hacc]].
      constructor; [split; assumption | exact Hrej].
  - intros (rej & acc & -> & Hrej & Hg & Ha & <-).
    induction Hrej as [| a rej [Hga Hra] _ IH]; cbn.
    + apply draw_unfold. exists acc, []. rewrite Ha, app_nil_r. auto.
    + apply draw_unfold. exists a, (flat_map (attempt_log self) rej ++ attempt_log self acc).
      rewrite Hra, app_assoc. auto.
Qed.

(** An accepted turn is an execution of [draw]. *)
Lemma exec_draw_accepted self a :
  guard_ok a = true -> accepted a = true ->
  exec (draw self) (attempt_log self a) (candidate a).
Proof.
  intros Hg Ha. apply draw_exec. exists [], a. cbn. auto.
Qed.





Lemma draw_no_seed_call self log x :
  exec (draw self) log x -> Forall (fun ev => is_seed_call ev = false) log.
Proof.
  intros H. apply draw_exec in H as (rej & acc & -> & _).
  apply Forall_app. split.
  - apply Forall_flat_map, Forall_forall. intros a _.
    destruct a; repeat constructor.
  - destruct acc; repeat constructor.
Qed.

Lemma draws_no_seed_call self ds :
  draws_of self ds -> Forall (fun ev => is_seed_call ev = false) (draws_log ds).
Proof.
  intros Hds. apply Forall_flat_map. eapply Forall_impl; [| exact Hds].
  intros d Hd. exact (draw_no_seed_call _ _ _ Hd).
Qed.

Lemma draw_log_nonempty self log x : exec (draw self) log x -> log <> [].
Proof.
  intros H. apply draw_exec in H as (rej & acc & -> & _).
  destruct rej as [| [] ?], acc; discriminate.
Qed.

(** ** The executions of [sample] *)

Lemma draw_same_callables s1 s2 : same_callables s1 s2 -> draw s1 = draw s2.
Proof.
  destruct s1, s2. unfold same_callables. cbn.
  intros (-> & -> & ->). reflexivity.
Qed.

Lemma setitem_samples_inr b self i x self' :
  setitem_samples b self i x = inr self' ->
  exists a a', samples self = Some a /\ np_setitem b a i x = inr a' /\
               self' = set_samples self (Some a').
Proof.
  unfold setitem_samples. destruct (samples self) as [a |]; [| discriminate].
  destruct (np_setitem b a i x) as [e | a'] eqn:Hset; [discriminate |].
  intros [= <-]. eauto.
Qed.

Lemma setitem_samples_callables b self i x self' :
  setitem_samples b self i x = inr self' -> same_callables self self'.
Proof.
  intros H. apply setitem_samples_inr in H as (a & a' & _ & _ & ->).
  repeat split.
Qed.

Lemma exec_draw_half self :
  same_callables s0 self -> exec (draw self) log_half (VScalar 0x1p-1).
Proof.
  intros H. rewrite <- (draw_same_callables _ _ H).
  exact (exec_draw_accepted s0 turn_half eq_refl eq_refl).
Qed.

Lemma exec_draw_pair : exec (draw s0) log_pair (VSeq [0x1p+0; 0x1p+1]%float).
Proof. exact (exec_draw_accepted s0 turn_pair eq_refl eq_refl). Qed.

Lemma exec_draw_three : exec (draw s0) log_three (VScalar 0x1.8p+1).
Proof. exact (exec_draw_accepted s0 turn_three eq_refl eq_refl). Qed.

Section ReplayExec.

Variable size_one_converts : bool.

Lemma sample_loop_exec self0 self idxs log r :
  same_callables self0 self ->
  exec (sample_loop size_one_converts self idxs) log r <->
  exists ds, draws_of self0 ds /\ log = draws_log ds /\
             loop_replay size_one_converts self idxs (List.map snd ds) = Some r.
Proof.
  intros Hsame. revert self log Hsame.
  induction idxs as [| i rest IH]; intros self log Hsame; cbn [sample_loop].
  - split.
    + intros H. apply exec_Ret_inv in H as [-> ->].
      exists []. repeat split. constructor.
    + intros (ds & _ & -> & H). destruct ds as [| d ds]; cbn in H; [| discriminate].
      injection H as <-. apply exec_Ret.
  - rewrite <- (draw_same_callables _ _ Hsame). split.
    + intros H. apply exec_bind_inv in H as (log1 & x & log2 & -> & Hd & H).
      destruct (setitem_samples size_one_converts self i x) as [e | self'] eqn:Hset.
      * apply exec_Ret_inv in H as [-> ->].
        exists [(log1, x)]. cbn. rewrite Hset. repeat split.
        constructor; [exact Hd | constructor].
      * apply IH in H as (ds & Hds & -> & Hrep).
        2:{ destruct Hsame as (? & ? & ?).
            apply setitem_samples_callables in Hset as (? & ? & ?).
            repeat split; congruence. }
        exists ((log1, x) :: ds). cbn. rewrite Hset. repeat split; [| exact Hrep].
        constructor; assumption.
    + intros (ds & Hds & -> & Hrep). destruct ds as [| [log1 x] ds]; cbn in Hrep; [discriminate |].
      inversion Hds as [| ? ? Hd Hds']; subst. cbn in Hd. cbn [draws_log flat_map fst].
      apply exec_bind with (x := x); [exact Hd |].
      destruct (setitem_samples size_one_converts self i x) as [e | self'] eqn:Hset.
      * destruct ds; [| discriminate]. injection Hrep as <-. apply exec_Ret.
      * apply IH.
        { destruct Hsame as (? & ? & ?).
          apply setitem_samples_callables in Hset as (? & ? & ?).
          repeat split; congruence. }
        exists ds. auto.
Qed.

(** Every execution of [sample] is the seeding call, if a seed is given,
    followed by completed draws, and its outcome is the replay of the
    stores on the values drawn. *)
Lemma sample_exec self n seed log r :
  exec (sample size_one_converts self n seed) log r <->
  exists ds, draws_of self ds /\ log = seed_log seed ++ draws_log ds /\
             sample_replay size_one_converts self n (List.map snd ds) = Some r.
Proof.
  assert (Hseed : forall log' r',
    exec (match seed with
          | Some s => ITree.trigger (NpRandomSeed s)
          | None => Ret tt
          end : itree samplerE unit) log' r' <-> log' = seed_log seed).
  { intros log' r'. destruct seed as [s |]; cbn; split.
    - intros H. apply exec_trigger_inv in H. destruct r'. exact H.
    - intros ->. destruct r'. apply exec_trigger.
    - intros H. now apply exec_Ret_inv in H.
    - intros ->. destruct r'. apply exec_Ret. }
  unfold sample. split.
  - intros H. apply exec_bind_inv in H as (log0 & u & log1 & -> & H0 & H).
    apply Hseed in H0 as ->.
    apply exec_bind_inv in H as (log1' & first & log2 & -> & Hd & H).
    unfold sample_replay.
    destruct (allocate n first) as [e | a] eqn:Halloc.
    { apply exec_Ret_inv in H as [-> ->]. exists [(log1', first)]. unfold draws_log. cbn [List.map snd fst flat_map].
      rewrite Halloc, app_nil_r. repeat split. constructor; [exact Hd | constructor]. }
    cbn zeta in H.
    destruct (setitem_samples size_one_converts (set_samples self (Some a)) 0 first)
      as [e | self1] eqn:Hset.
    { apply exec_Ret_inv in H as [-> ->]. exists [(log1', first)]. unfold draws_log. cbn [List.map snd fst flat_map].
      rewrite Halloc. cbn zeta. rewrite Hset, app_nil_r. repeat split.
      constructor; [exact Hd | constructor]. }
    apply exec_bind_inv in H as (log3 & [self2 oe] & log4 & -> & Hloop & H).
    apply (sample_loop_exec self) in Hloop as (ds & Hds & -> & Hrep).
    2:{ apply setitem_samples_callables in Hset. exact Hset. }
    exists ((log1', first) :: ds). unfold draws_log. cbn [List.map snd fst flat_map].
    rewrite Halloc. cbn zeta. rewrite Hset, Hrep.
    destruct oe as [e |]; apply exec_Ret_inv in H as [-> ->];
      rewrite app_nil_r; repeat split; constructor; assumption.
  - intros (ds & Hds & -> & Hrep).
    apply exec_bind with (x := tt); [now apply Hseed |].
    destruct ds as [| [log1 first] ds]; [discriminate |].
    unfold sample_replay in Hrep. cbn [List.map snd] in Hrep.
    inversion Hds as [| ? ? Hd Hds']; subst. cbn in Hd.
    unfold draws_log. cbn [flat_map fst].
    apply exec_bind with (x := first); [exact Hd |].
    destruct (allocate n first) as [e | a] eqn:Halloc.
    { destruct ds; [| discriminate]. injection Hrep as <-. apply exec_Ret. }
    cbn zeta in *.
    destruct (setitem_samples size_one_converts (set_samples self (Some a)) 0 first)
      as [e | self1] eqn:Hset.
    { destruct ds; [| discriminate]. injection Hrep as <-. apply exec_Ret. }
    destruct (loop_replay size_one_converts self1 (xrange 1 n) (List.map snd ds)) as [[self2 oe] |] eqn:Hloop;
      [| discriminate].
    rewrite <- (app_nil_r (flat_map fst ds)).
    apply exec_bind with (x := (self2, oe)).
    + apply (sample_loop_exec self).
      * apply setitem_samples_callables in Hset. exact Hset.
      * exists ds. auto.
    + destruct oe; injection Hrep as <-; apply exec_Ret.
Qed.

End ReplayExec.

(** The first draw of every execution of [sample]. *)
Lemma sample_first_draw b self n seed log r :
  exec (sample b self n seed) log r ->
  exists log1 first log2,
    exec (draw self) log1 first /\ log = seed_log seed ++ log1 ++ log2.
Proof.
  intros H. apply sample_exec in H as (ds & Hds & -> & Hrep).
  destruct ds as [| [log1 first] ds]; [discriminate |].
  inversion Hds as [| ? ? Hd _]; subst.
  exists log1, first, (draws_log ds). auto.
Qed.

(** ** Facts about the NumPy fragment *)

Lemma list_set_length {A} (l : list A) i a : length (list_set l i a) = length l.
Proof.
  revert i. induction l as [| h t IH]; intros [| i]; cbn; try reflexivity.
  now rewrite IH.
Qed.

Lemma list_set_nth_same {A} (l : list A) i a :
  (i < length l)%nat -> nth_error (list_set l i a) i = Some a.
Proof.
  revert i. induction l as [| h t IH]; intros [| i] Hi; cbn in *; try lia.
  - reflexivity.
  - apply IH. lia.
Qed.

Lemma list_set_nth_other {A} (l : list A) i j a :
  i <> j -> nth_error (list_set l i a) j = nth_error l j.
Proof.
  revert i j. induction l as [| h t IH]; intros [| i] [| j] Hij; cbn;
    try reflexivity; try contradiction.
  apply IH. congruence.
Qed.

Lemma normalize_index_nat (j len : nat) :
  normalize_index (Z.of_nat j) len = if (j <? len)%nat then Some j else None.
Proof.
  unfold normalize_index.
  destruct (Z.ltb_spec (Z.of_nat j) 0) as [H | _]; [lia |].
  destruct (Z.leb_spec 0 (Z.of_nat j)) as [_ | H]; [| lia].
  destruct (Z.ltb_spec (Z.of_nat j) (Z.of_nat len)) as [H | H];
    destruct (Nat.ltb_spec j len) as [H' | H']; try lia; cbn.
  - now rewrite Nat2Z.id.
  - reflexivity.
Qed.

Lemma xrange_from_1 (n : Z) :
  xrange 1 n = List.map Z.of_nat (seq 1 (Z.to_nat (n - 1))).
Proof.
  unfold xrange. rewrite <- List.seq_shift, List.map_map.
  apply List.map_ext. intros k. lia.
Qed.


Lemma cons_eq_inv {A} (a b : A) (l l' : list A) :
  a :: l = b :: l' -> a = b /\ l = l'.
Proof. intros H. now injection H. Qed.

Section NumpyFacts.

Variable size_one_converts : bool.

Lemma stored_shape a a' x : shape a = shape a' -> stored size_one_converts a x = stored size_one_converts a' x.
Proof.
  destruct a, a'; cbn; intros H; try discriminate; try reflexivity.
  now injection H as _ ->.
Qed.

Lemma blank_shape a a' : shape a = shape a' -> blank a = blank a'.
Proof.
  destruct a, a'; cbn; intros H; try discriminate; try reflexivity.
  now injection H as _ ->.
Qed.

Lemma first_axis_shape a a' : shape a = shape a' -> first_axis a = first_axis a'.
Proof.
  destruct a, a'; cbn; intros H; try discriminate; now injection H.
Qed.

(** A successful indexed store keeps the shape, writes the converted
    value at the index and leaves every other index alone. *)
Lemma np_setitem_ok a j x a' :
  np_setitem size_one_converts a (Z.of_nat j) x = inr a' ->
  (j < first_axis a)%nat /\ shape a' = shape a /\
  stored size_one_converts a x <> None /\ getitem a' j = stored size_one_converts a x /\
  forall k, k <> j -> getitem a' k = getitem a k.
Proof.
  unfold np_setitem. rewrite normalize_index_nat.
  destruct (Nat.ltb_spec j (first_axis a)) as [Hj | Hj]; [| discriminate].
  destruct a as [cells | d rows]; cbn in *.
  - destruct (as_cell size_one_converts x) as [c |]; [| discriminate].
    intros [= <-]. cbn [shape getitem option_map]. rewrite list_set_length.
    split; [exact Hj |]. split; [reflexivity |]. split; [discriminate |]. split.
    + now rewrite list_set_nth_same.
    + intros k Hk. now rewrite list_set_nth_other by congruence.
  - destruct (as_row d x) as [r |]; [| discriminate].
    intros [= <-]. cbn [shape getitem option_map]. rewrite list_set_length.
    split; [exact Hj |]. split; [reflexivity |]. split; [discriminate |]. split.
    + now rewrite list_set_nth_same.
    + intros k Hk. now rewrite list_set_nth_other by congruence.
Qed.

(** It succeeds exactly when the index is in range and the value can be
    converted; it fails with [IndexError] out of range, and otherwise with
    [ValueError]. *)
Lemma np_setitem_cases a j x :
  match np_setitem size_one_converts a (Z.of_nat j) x with
  | inr _ => (j < first_axis a)%nat /\ stored size_one_converts a x <> None
  | inl IndexError => (first_axis a <= j)%nat
  | inl ValueError => (j < first_axis a)%nat /\ stored size_one_converts a x = None
  | inl TypeError => False
  end.
Proof.
  unfold np_setitem. rewrite normalize_index_nat.
  destruct (Nat.ltb_spec j (first_axis a)) as [Hj | Hj]; [| exact Hj].
  destruct a as [cells | d rows]; cbn.
  - destruct (as_cell size_one_converts x); cbn; split; auto; discriminate.
  - destruct (as_row d x); cbn; split; auto; discriminate.
Qed.

Lemma allocate_ok n first a :
  allocate n first = inr a ->
  0 <= n /\ shape a = first_shape n first /\
  stored size_one_converts a first = Some (first_item first) /\
  forall i, (i < Z.to_nat n)%nat -> getitem a i = Some (blank a).
Proof.
  unfold allocate, np_empty, np_empty2.
  destruct (Z.ltb_spec n 0) as [Hn | Hn].
  { destruct first; discriminate. }
  destruct first as [f | l]; cbn; intros [= <-]; cbn; rewrite repeat_length;
    repeat split; try assumption.
  - intros i Hi. rewrite (nth_error_repeat _ Hi). reflexivity.
  - now rewrite Nat.eqb_refl.
  - intros i Hi. rewrite (nth_error_repeat _ Hi). reflexivity.
Qed.

Lemma allocate_negative n first : n < 0 -> allocate n first = inl ValueError.
Proof.
  intros Hn. unfold allocate, np_empty, np_empty2.
  destruct (Z.ltb_spec n 0) as [_ | H]; [| lia]. now destruct first.
Qed.

Lemma allocate_nonneg n first : 0 <= n -> exists a, allocate n first = inr a.
Proof.
  intros Hn. unfold allocate, np_empty, np_empty2.
  destruct (Z.ltb_spec n 0) as [H | _]; [lia |]. destruct first; cbn; eauto.
Qed.

Lemma first_shape_first_axis a n first :
  shape a = first_shape n first -> first_axis a = Z.to_nat n.
Proof.
  destruct a, first; cbn; intros H; try discriminate; now injection H.
Qed.

End NumpyFacts.

(** ** The loop of [sample] on the values drawn *)

Lemma set_samples_twice self a a' :
  set_samples (set_samples self a) a' = set_samples self a'.
Proof. reflexivity. Qed.

Lemma set_samples_same self a : samples self = a -> set_samples self a = self.
Proof. destruct self; cbn; now intros ->. Qed.

Section ReplayFacts.

Variable size_one_converts : bool.

Lemma setitem_samples_Some self a j x :
  samples self = Some a ->
  setitem_samples size_one_converts self (Z.of_nat j) x =
  match np_setitem size_one_converts a (Z.of_nat j) x with
  | inl e => inl e
  | inr a' => inr (set_samples self (Some a'))
  end.
Proof. unfold setitem_samples. now intros ->. Qed.

(** What the loop over the indices [k, ..., k+m-1] of a buffer of length
    [k+m] does with the values [xs] drawn for them: it stores them in
    order; it ends normally when there is one value per index and each can
    be stored, and with [ValueError] at the first value that cannot. *)
Lemma loop_replay_inv m : forall k self a xs self' oe,
  samples self = Some a ->
  (k + m = first_axis a)%nat ->
  loop_replay size_one_converts self (List.map Z.of_nat (seq k m)) xs = Some (self', oe) ->
  exists a',
    self' = set_samples self (Some a') /\ shape a' = shape a /\
    (forall i, (i < k)%nat -> getitem a' i = getitem a i) /\
    match oe with
    | None =>
        length xs = m /\
        forall j x, nth_error xs j = Some x ->
          stored size_one_converts a x <> None /\ getitem a' (k + j) = stored size_one_converts a x
    | Some e =>
        e = ValueError /\
        exists ok bad,
          xs = ok ++ [bad] /\ (length ok < m)%nat /\ stored size_one_converts a bad = None /\
          (forall j x, nth_error ok j = Some x ->
             stored size_one_converts a x <> None /\ getitem a' (k + j) = stored size_one_converts a x) /\
          (forall i, (k + length ok <= i)%nat -> getitem a' i = getitem a i)
    end.
Proof.
  induction m as [| m IH]; intros k self a xs self' oe Hs Hlen Hrep.
  - cbn in Hrep. destruct xs; [| discriminate]. injection Hrep as <- <-.
    exists a. rewrite (set_samples_same _ _ Hs).
    split; [reflexivity |]. split; [reflexivity |]. split; [reflexivity |].
    split; [reflexivity |]. intros [| j] x; discriminate.
  - cbn [seq List.map loop_replay] in Hrep.
    destruct xs as [| x xs]; [discriminate |].
    rewrite (setitem_samples_Some _ _ _ _ Hs) in Hrep.
    pose proof (np_setitem_cases size_one_converts a k x) as Hcases.
    destruct (np_setitem size_one_converts a (Z.of_nat k) x) as [e | a1] eqn:Hset.
    + destruct xs; [| discriminate]. injection Hrep as <- <-.
      exists a. rewrite (set_samples_same _ _ Hs).
      destruct e; [| lia | contradiction]. destruct Hcases as [_ Hbad].
      split; [reflexivity |]. split; [reflexivity |]. split; [reflexivity |].
      split; [reflexivity |]. exists [], x. cbn [app length].
      split; [reflexivity |]. split; [lia |]. split; [exact Hbad |].
      split; [intros [| j] y; discriminate | reflexivity].
    + apply np_setitem_ok in Hset as (Hk & Hshape & Hfit & Hget & Hother).
      apply (IH (S k) _ a1) in Hrep; [| reflexivity |].
      2:{ rewrite (first_axis_shape _ _ Hshape). lia. }
      destruct Hrep as (a' & -> & Hshape' & Hlow & Hoe).
      exists a'. split; [reflexivity |]. split; [congruence |]. split.
      { intros i Hi. rewrite Hlow by lia. apply Hother. lia. }
      assert (Hk' : getitem a' k = stored size_one_converts a x).
      { rewrite Hlow by lia. exact Hget. }
      destruct oe as [e |].
      * destruct Hoe as (-> & ok & bad & -> & Hok & Hbad & Hitems & Hrest).
        split; [reflexivity |]. exists (x :: ok), bad. cbn [app length].
        split; [reflexivity |]. split; [lia |].
        split; [now rewrite <- (stored_shape size_one_converts _ _ _ Hshape) |]. split.
        -- intros [| j] y Hy; cbn in Hy.
           ++ injection Hy as <-. rewrite Nat.add_0_r. auto.
           ++ apply Hitems in Hy. rewrite (stored_shape size_one_converts _ _ _ Hshape) in Hy.
              replace (k + S j)%nat with (S k + j)%nat by lia. exact Hy.
        -- intros i Hi. rewrite Hrest by lia. apply Hother. lia.
      * destruct Hoe as (Hlenxs & Hitems). split; [cbn; lia |].
        intros [| j] y Hy; cbn in Hy.
        -- injection Hy as <-. rewrite Nat.add_0_r. auto.
        -- apply Hitems in Hy. rewrite (stored_shape size_one_converts _ _ _ Hshape) in Hy.
           replace (k + S j)%nat with (S k + j)%nat by lia. exact Hy.
Qed.

(** Conversely: values that can all be stored, one per index, take the
    loop to its normal end. *)
Lemma loop_replay_ok m : forall k self a xs,
  samples self = Some a ->
  (k + m = first_axis a)%nat ->
  length xs = m ->
  Forall (fun x => stored size_one_converts a x <> None) xs ->
  exists a', loop_replay size_one_converts self (List.map Z.of_nat (seq k m)) xs =
             Some (set_samples self (Some a'), None).
Proof.
  induction m as [| m IH]; intros k self a xs Hs Hlen Hxs Hfit.
  - destruct xs; [| discriminate]. exists a. cbn. now rewrite (set_samples_same _ _ Hs).
  - destruct xs as [| x xs]; [discriminate |].
    inversion Hfit as [| ? ? Hx Hfit']; subst.
    cbn [seq List.map loop_replay]. rewrite (setitem_samples_Some _ _ _ _ Hs).
    pose proof (np_setitem_cases size_one_converts a k x) as Hcases.
    destruct (np_setitem size_one_converts a (Z.of_nat k) x) as [e | a1] eqn:Hset.
    + destruct e; [destruct Hcases; contradiction | lia | contradiction].
    + apply np_setitem_ok in Hset as (Hk & Hshape & _).
      destruct (IH (S k) (set_samples self (Some a1)) a1 xs) as [a' Ha'].
      * reflexivity.
      * rewrite (first_axis_shape _ _ Hshape). lia.
      * cbn in Hxs. lia.
      * eapply Forall_impl; [| exact Hfit']. intros y Hy.
        now rewrite (stored_shape size_one_converts _ _ _ Hshape).
      * exists a'. exact Ha'.
Qed.

(** And a value that cannot be stored ends it with [ValueError], however
    many indices remain. *)
Lemma loop_replay_fail m : forall k self a ok bad,
  samples self = Some a ->
  (k + m = first_axis a)%nat ->
  (length ok < m)%nat ->
  Forall (fun x => stored size_one_converts a x <> None) ok ->
  stored size_one_converts a bad = None ->
  exists a', loop_replay size_one_converts self (List.map Z.of_nat (seq k m)) (ok ++ [bad]) =
             Some (set_samples self (Some a'), Some ValueError).
Proof.
  induction m as [| m IH]; intros k self a ok bad Hs Hlen Hok Hfit Hbad; [lia |].
  cbn [seq List.map]. destruct ok as [| x ok]; cbn [app loop_replay];
    rewrite (setitem_samples_Some _ _ _ _ Hs).
  - pose proof (np_setitem_cases size_one_converts a k bad) as Hcases.
    destruct (np_setitem size_one_converts a (Z.of_nat k) bad) as [e | a1].
    + exists a. rewrite (set_samples_same _ _ Hs).
      destruct e; [reflexivity | lia | contradiction].
    + destruct Hcases; contradiction.
  - inversion Hfit as [| ? ? Hx Hfit']; subst.
    pose proof (np_setitem_cases size_one_converts a k x) as Hcases.
    destruct (np_setitem size_one_converts a (Z.of_nat k) x) as [e | a1] eqn:Hset.
    + destruct e; [destruct Hcases; contradiction | lia | contradiction].
    + apply np_setitem_ok in Hset as (Hk & Hshape & _).
      destruct (IH (S k) (set_samples self (Some a1)) a1 ok bad) as [a' Ha'].
      * reflexivity.
      * rewrite (first_axis_shape _ _ Hshape). lia.
      * cbn in Hok. lia.
      * eapply Forall_impl; [| exact Hfit']. intros y Hy.
        now rewrite (stored_shape size_one_converts _ _ _ Hshape).
      * now rewrite (stored_shape size_one_converts _ _ _ Hshape).
      * exists a'. exact Ha'.
Qed.

End ReplayFacts.

(** ** [sample] on the values drawn *)

Section SampleReplayFacts.

Variable size_one_converts : bool.

Lemma fits_stored a n first x :
  shape a = first_shape n first ->
  (stored size_one_converts a x <> None <-> fits size_one_converts first x = true).
Proof.
  destruct a as [cells | d rows], first as [f | l]; cbn; intros H;
    try discriminate.
  - destruct (as_cell size_one_converts x); cbn; split;
      (reflexivity || discriminate || congruence).
  - injection H as _ ->. destruct (as_row (length l) x); cbn; split;
      (reflexivity || discriminate || congruence).
Qed.

Lemma fits_stored_false a n first x :
  shape a = first_shape n first ->
  (stored size_one_converts a x = None <-> fits size_one_converts first x = false).
Proof.
  intros H. pose proof (fits_stored a n first x H) as [H1 H2].
  destruct (fits size_one_converts first x), (stored size_one_converts a x); split;
    try reflexivity; try discriminate; intros _.
  - exfalso. now apply H2.
  - assert (Some i <> None) as H' by discriminate. now apply H1 in H'.
Qed.

(** The outcomes of [sample], by cases on [n] and on the values drawn. *)
Lemma sample_replay_inv self n xs self' r :
  sample_replay size_one_converts self n xs = Some (self', r) ->
  exists first rest, xs = first :: rest /\
    match allocate n first with
    | inl _ => n < 0 /\ rest = [] /\ self' = self /\ r = inl ValueError
    | inr a0 =>
        0 <= n /\
        exists a', self' = set_samples self (Some a') /\ shape a' = shape a0 /\
          if n =? 0 then rest = [] /\ a' = a0 /\ r = inl IndexError
          else
            getitem a' 0 = Some (first_item first) /\
            ((r = inr (Some a') /\ length rest = Z.to_nat (n - 1) /\
              forall j x, nth_error rest j = Some x ->
                fits size_one_converts first x = true /\
                getitem a' (S j) = stored size_one_converts a0 x)
             \/
             (r = inl ValueError /\
              exists ok bad,
                rest = ok ++ [bad] /\ (length ok < Z.to_nat (n - 1))%nat /\
                fits size_one_converts first bad = false /\
                (forall j x, nth_error ok j = Some x ->
                   fits size_one_converts first x = true /\
                   getitem a' (S j) = stored size_one_converts a0 x) /\
                (forall i, (S (length ok) <= i < Z.to_nat n)%nat ->
                   getitem a' i = Some (blank a0))))
    end.
Proof.
  unfold sample_replay. destruct xs as [| first rest]; [discriminate |].
  intros H. exists first, rest. split; [reflexivity |].
  destruct (allocate n first) as [e | a0] eqn:Halloc.
  { destruct rest; [| discriminate]. injection H as <- <-.
    destruct (Z.ltb_spec n 0) as [Hn | Hn].
    - rewrite (allocate_negative _ _ Hn) in Halloc. injection Halloc as <-. auto.
    - destruct (allocate_nonneg n first Hn) as [a Ha]. congruence. }
  apply (allocate_ok size_one_converts) in Halloc as (Hn & Hshape & Hfirst & Hblank).
  pose proof (first_shape_first_axis _ _ _ Hshape) as Hlen.
  split; [exact Hn |]. cbn zeta in H.
  change 0 with (Z.of_nat 0) in H at 1.
  rewrite (setitem_samples_Some size_one_converts (set_samples self (Some a0)) a0 0 first eq_refl) in H.
  pose proof (np_setitem_cases size_one_converts a0 0 first) as Hcases.
  destruct (np_setitem size_one_converts a0 (Z.of_nat 0) first) as [e | a1] eqn:Hset.
  - destruct rest; [| discriminate]. injection H as <- <-.
    destruct e; [destruct Hcases; congruence | | contradiction].
    exists a0. split; [reflexivity |]. split; [reflexivity |].
    destruct (Z.eqb_spec n 0) as [_ | Hn0]; [auto | lia].
  - destruct Hcases as [Hpos _].
    destruct (Z.eqb_spec n 0) as [Hn0 | _]; [lia |].
    apply np_setitem_ok in Hset as (_ & Hshape1 & _ & Hget0 & Hother).
    rewrite set_samples_twice, xrange_from_1 in H.
    destruct (loop_replay size_one_converts (set_samples self (Some a1))
                (List.map Z.of_nat (seq 1 (Z.to_nat (n - 1)))) rest)
      as [[self2 oe] |] eqn:Hloop; [| discriminate].
    apply (loop_replay_inv size_one_converts _ _ _ a1) in Hloop; [| reflexivity |].
    2:{ rewrite (first_axis_shape _ _ Hshape1). lia. }
    destruct Hloop as (a' & -> & Hshape' & Hlow & Hoe).
    assert (Hsh : shape a' = shape a0) by congruence.
    assert (Hst : forall x, stored size_one_converts a1 x = stored size_one_converts a0 x).
    { intros x. now apply stored_shape. }
    assert (H0 : getitem a' 0 = Some (first_item first)).
    { rewrite Hlow by lia. congruence. }
    destruct oe as [e |]; injection H as <- <-; exists a';
      (split; [reflexivity |]); (split; [exact Hsh |]); (split; [exact H0 |]).
    + right. destruct Hoe as (-> & ok & bad & -> & Hok & Hbad & Hitems & Hrest).
      split; [reflexivity |]. exists ok, bad.
      split; [reflexivity |]. split; [exact Hok |]. split.
      { apply (fits_stored_false a0 n); [exact Hshape | now rewrite <- Hst]. }
      split.
      * intros j x Hx. apply Hitems in Hx as [Hx1 Hx2]. rewrite Hst in Hx1, Hx2.
        split; [now apply (fits_stored a0 n) | exact Hx2].
      * intros i Hi. rewrite Hrest by (cbn; lia). rewrite Hother by lia.
        apply Hblank. lia.
    + left. destruct Hoe as (Hlenr & Hitems).
      split; [reflexivity |]. split; [exact Hlenr |].
      intros j x Hx. apply Hitems in Hx as [Hx1 Hx2]. rewrite Hst in Hx1, Hx2.
      split; [now apply (fits_stored a0 n) | exact Hx2].
Qed.

(** Conversely, for [n >= 1]: one value per index, each fitting the first,
    gives the buffer back. *)
Lemma sample_replay_ok self n first rest :
  1 <= n ->
  length rest = Z.to_nat (n - 1) ->
  Forall (fun x => fits size_one_converts first x = true) rest ->
  exists a', sample_replay size_one_converts self n (first :: rest) =
             Some (set_samples self (Some a'), inr (Some a')).
Proof.
  intros Hn Hlen Hfits. unfold sample_replay.
  destruct (allocate_nonneg n first) as [a0 Halloc]; [lia |]. rewrite Halloc.
  apply (allocate_ok size_one_converts) in Halloc as (_ & Hshape & Hfirst & _).
  pose proof (first_shape_first_axis _ _ _ Hshape) as Hax.
  cbn zeta. change 0 with (Z.of_nat 0) at 1.
  rewrite (setitem_samples_Some size_one_converts (set_samples self (Some a0)) a0 0 first eq_refl).
  pose proof (np_setitem_cases size_one_converts a0 0 first) as Hcases.
  destruct (np_setitem size_one_converts a0 (Z.of_nat 0) first) as [e | a1] eqn:Hset.
  { destruct e; [destruct Hcases; congruence | lia | contradiction]. }
  apply np_setitem_ok in Hset as (_ & Hshape1 & _).
  rewrite set_samples_twice, xrange_from_1.
  destruct (loop_replay_ok size_one_converts (Z.to_nat (n - 1)) 1
              (set_samples self (Some a1)) a1 rest) as [a' Ha'].
  - reflexivity.
  - rewrite (first_axis_shape _ _ Hshape1). lia.
  - exact Hlen.
  - eapply Forall_impl; [| exact Hfits]. intros x Hx.
    apply (fits_stored a1 n first); [congruence | exact Hx].
  - rewrite Ha'. exists a'. reflexivity.
Qed.

(** And a value that does not fit ends the batch with [ValueError]. *)
Lemma sample_replay_fail self n first ok bad :
  1 <= n ->
  (length ok < Z.to_nat (n - 1))%nat ->
  Forall (fun x => fits size_one_converts first x = true) ok ->
  fits size_one_converts first bad = false ->
  exists a', sample_replay size_one_converts self n (first :: ok ++ [bad]) =
             Some (set_samples self (Some a'), inl ValueError).
Proof.
  intros Hn Hlen Hfits Hbad. unfold sample_replay.
  destruct (allocate_nonneg n first) as [a0 Halloc]; [lia |]. rewrite Halloc.
  apply (allocate_ok size_one_converts) in Halloc as (_ & Hshape & Hfirst & _).
  pose proof (first_shape_first_axis _ _ _ Hshape) as Hax.
  cbn zeta. change 0 with (Z.of_nat 0) at 1.
  rewrite (setitem_samples_Some size_one_converts (set_samples self (Some a0)) a0 0 first eq_refl).
  pose proof (np_setitem_cases size_one_converts a0 0 first) as Hcases.
  destruct (np_setitem size_one_converts a0 (Z.of_nat 0) first) as [e | a1] eqn:Hset.
  { destruct e; [destruct Hcases; congruence | lia | contradiction]. }
  apply np_setitem_ok in Hset as (_ & Hshape1 & _).
  rewrite set_samples_twice, xrange_from_1.
  destruct (loop_replay_fail size_one_converts (Z.to_nat (n - 1)) 1
              (set_samples self (Some a1)) a1 ok bad) as [a' Ha'].
  - reflexivity.
  - rewrite (first_axis_shape _ _ Hshape1). lia.
  - exact Hlen.
  - eapply Forall_impl; [| exact Hfits]. intros x Hx.
    apply (fits_stored a1 n first); [congruence | exact Hx].
  - apply (fits_stored_false a1 n first); [congruence | exact Hbad].
  - rewrite Ha'. exists a'. reflexivity.
Qed.

Lemma sample_replay_negative self n xs self' r :
  n < 0 ->
  sample_replay size_one_converts self n xs = Some (self', r) ->
  exists first, xs = [first] /\ self' = self /\ r = inl ValueError.
Proof.
  intros Hn H. apply sample_replay_inv in H as (first & rest & -> & H).
  rewrite (allocate_negative _ _ Hn) in H. destruct H as (_ & -> & -> & ->).
  eauto.
Qed.

Lemma sample_replay_zero self xs self' r :
  sample_replay size_one_converts self 0 xs = Some (self', r) ->
  exists first a0,
    xs = [first] /\ allocate 0 first = inr a0 /\
    self' = set_samples self (Some a0) /\ r = inl IndexError.
Proof.
  intros H. apply sample_replay_inv in H as (first & rest & -> & H).
  destruct (allocate_nonneg 0 first) as [a0 Ha0]; [lia |]. rewrite Ha0 in H.
  destruct H as (_ & a' & -> & _ & H). cbn in H. destruct H as (-> & -> & ->).
  eauto 6.
Qed.

Lemma sample_replay_positive self n xs self' r :
  1 <= n ->
  sample_replay size_one_converts self n xs = Some (self', r) ->
  exists first rest a0 a',
    xs = first :: rest /\ allocate n first = inr a0 /\
    shape a0 = first_shape n first /\
    stored size_one_converts a0 first = Some (first_item first) /\
    self' = set_samples self (Some a') /\ shape a' = shape a0 /\
    getitem a' 0 = Some (first_item first) /\
    ((r = inr (Some a') /\ length rest = Z.to_nat (n - 1) /\
      forall j x, nth_error rest j = Some x ->
        fits size_one_converts first x = true /\
        getitem a' (S j) = stored size_one_converts a0 x)
     \/
     (r = inl ValueError /\
      exists ok bad,
        rest = ok ++ [bad] /\ (length ok < Z.to_nat (n - 1))%nat /\
        fits size_one_converts first bad = false /\
        (forall j x, nth_error ok j = Some x ->
           fits size_one_converts first x = true /\
           getitem a' (S j) = stored size_one_converts a0 x) /\
        (forall i, (S (length ok) <= i < Z.to_nat n)%nat ->
           getitem a' i = Some (blank a0)))).
Proof.
  intros Hn H. apply sample_replay_inv in H as (first & rest & -> & H).
  destruct (allocate_nonneg n first) as [a0 Ha0]; [lia |]. rewrite Ha0 in H.
  destruct H as (_ & a' & -> & Hshape & H).
  destruct (Z.eqb_spec n 0) as [Hn0 | _]; [lia |]. destruct H as (H0 & H).
  pose proof (allocate_ok size_one_converts _ _ _ Ha0) as (_ & Hsh0 & Hfirst & _).
  exists first, rest, a0, a'. auto 10.
Qed.

End SampleReplayFacts.

(** Which later draws fit the buffer allocated from the first. *)
Lemma fits_cases size_one_converts first x :
  fits size_one_converts first x =
  match first, x with
  | _, VScalar _ => true
  | VScalar _, VSeq l => (length l =? 1)%nat && size_one_converts
  | VSeq l0, VSeq l => (length l =? length l0)%nat || (length l =? 1)%nat
  end.
Proof.
  destruct first as [f0 | l0], x as [f | l]; cbn; try reflexivity.
  - destruct l as [| f [| g l]]; cbn; try reflexivity.
    now destruct size_one_converts.
  - destruct (Nat.eqb_spec (length l) (length l0)); [reflexivity |].
    destruct l as [| f [| g l]]; reflexivity.
Qed.

(** ** One tested turn *)

(** A log that is one tested turn is the log of no other turn. *)
Lemma attempt_log_tested_inv self a x upper e threshold log_threshold v :
  attempt_log self (Tested x upper e threshold log_threshold v) =
  attempt_log self a ->
  a = Tested x upper e threshold log_threshold v.
Proof.
  destruct a as [c u | c u e' t' l' v']; cbn; intros H.
  - do 2 apply cons_eq_inv in H as [_ H]. discriminate.
  - apply cons_eq_inv in H as [Hc H]. apply cons_eq_inv in H as [Hu H].
    apply cons_eq_inv in H as [He H]. apply cons_eq_inv in H as [Ht H].
    apply cons_eq_inv in H as [Hl H]. apply cons_eq_inv in H as [Hv _].
    apply (f_equal answer_value) in Hc.
    apply (f_equal answer_float) in Hu, He, Ht, Hl, Hv.
    cbn in Hc, Hu, He, Ht, Hl, Hv. congruence.
Qed.

(** One turn of the loop whose log is that of a tested turn. *)
Lemma draw_body_tested_turn self x upper e threshold log_threshold v r :
  exec (draw_body self)
    (attempt_log self (Tested x upper e threshold log_threshold v)) r <->
  (MIN <=? upper)%float = true /\
  r = if (log_threshold <? v)%float then inr x else inl tt.
Proof.
  rewrite draw_body_exec. split.
  - intros (a & Hg & Hlog & ->). apply attempt_log_tested_inv in Hlog as ->.
    split; [exact Hg | reflexivity].
  - intros [Hg ->]. exists (Tested x upper e threshold log_threshold v).
    split; [exact Hg |]. split; reflexivity.
Qed.

(** [draw] returning within the calls of one tested turn. *)
Lemma draw_tested_turn self x upper e threshold log_threshold v x' :
  exec (draw self)
    (attempt_log self (Tested x upper e threshold log_threshold v)) x' <->
  (MIN <=? upper)%float = true /\
  (log_threshold <? v)%float = true /\ x' = x.
Proof.
  split.
  - intros H. apply draw_unfold in H as (a & log' & Hg & Hlog & H).
    destruct a as [c u | c u e' t' l' v'].
    + cbn in Hlog, H. do 2 apply cons_eq_inv in Hlog as [_ Hlog].
      apply draw_unfold in H as (a' & log'' & _ & Hlog' & _).
      rewrite Hlog' in Hlog. destruct a'; cbn in Hlog;
        apply cons_eq_inv in Hlog as [Hc _];
        apply (f_equal answer_value) in Hc; discriminate.
    + assert (Hnil : log' = []).
      { cbn in Hlog. do 6 apply cons_eq_inv in Hlog as [_ Hlog]. now subst. }
      subst log'. rewrite app_nil_r in Hlog.
      apply attempt_log_tested_inv in Hlog. injection Hlog as -> -> -> -> -> ->.
      cbn in Hg, H. destruct (log_threshold <? v)%float.
      * destruct H as [_ ->]. auto.
      * now apply draw_log_nonempty in H.
  - intros (Hg & Hacc & ->).
    exact (exec_draw_accepted self (Tested x upper e threshold log_threshold v)
             Hg Hacc).
Qed.

(** * The claims *)

(** ** [draw] *)

(** C4.  [draw()] returns [x] exactly when its last turn drew [x] from the
    proposal sampler, found [u = propose_logpdf(x)] with [u >= MIN], drew the
    threshold [t = np.random.uniform(0.0, np.exp(u))] and found
    [np.log(t) < target_logpdf(x)]; every turn before it failed the guard or
    the test, was discarded, and the loop went round again. *)
Theorem draw_returns_iff_accepted self log x :
  exec (draw self) log x <->
  exists turns upper e threshold log_threshold v,
    log = flat_map (attempt_log self) turns ++
          [Event (CallSampler (propose_func self)) x;
           Event (CallLogpdf (propose_logpdf self) x) upper;
           Event (NpExp upper) e;
           Event (NpRandomUniform 0 e) threshold;
           Event (NpLog threshold) log_threshold;
           Event (CallLogpdf (target_logpdf self) x) v] /\
    Forall rejected turns /\
    (MIN <=? upper)%float = true /\
    (log_threshold <? v)%float = true.
Proof.
  rewrite draw_exec. split.
  - intros (rej & acc & -> & Hrej & Hg & Ha & <-).
    destruct acc as [c u | c u e t l v]; cbn in Ha; [discriminate |].
    exists rej, u, e, t, l, v. auto.
  - intros (rej & u & e & t & l & v & -> & Hrej & Hu & Hl).
    exists rej, (Tested x u e t l v). auto.
Qed.

(** C3, as the claim states it, fails: a candidate whose proposal
    log-density is exactly [MIN] is at the floor and yet goes through the
    acceptance test (here it is even accepted). *)
Lemma candidate_at_floor_is_tested :
  (MIN <=? MIN)%float = true /\
  exec (draw_body s0)
    [Event (CallSampler "q_sample") (VScalar 0x1p-1);
     Event (CallLogpdf "q_logpdf" (VScalar 0x1p-1)) MIN;
     Event (NpExp MIN) 0x1.000000000007cp-1022%float;
     Event (NpRandomUniform 0 0x1.000000000007cp-1022)
           0x1.000000000007cp-1023%float;
     Event (NpLog 0x1.000000000007cp-1023) (-0x1.628b76e3a7b6p+9)%float;
     Event (CallLogpdf "p_logpdf" (VScalar 0x1p-1)) MIN]
    (inr (VScalar 0x1p-1)).
Proof.
  split; [reflexivity |].
  apply draw_body_exec. exists turn_floor. repeat split.
Qed.

(** C3, amended.  The guard is [upper >= MIN]: a candidate whose proposal
    log-density is strictly below [MIN] (or is not a number) ends its turn
    after the two calls that produced it, with no call to [np.exp],
    [np.random.uniform], [np.log] or the target log-density, and the loop
    goes round again; a candidate at [MIN] or above is tested. *)
Theorem guard_resamples_below_floor self x upper rest r :
  exec (draw_body self)
    (Event (CallSampler (propose_func self)) x ::
     Event (CallLogpdf (propose_logpdf self) x) upper :: rest) r <->
  if (MIN <=? upper)%float then
    exists e threshold log_threshold v,
      rest = [Event (NpExp upper) e;
              Event (NpRandomUniform 0 e) threshold;
              Event (NpLog threshold) log_threshold;
              Event (CallLogpdf (target_logpdf self) x) v] /\
      r = if (log_threshold <? v)%float then inr x else inl tt
  else rest = [] /\ r = inl tt.
Proof.
  rewrite draw_body_exec. split.
  - intros (a & Hg & Hlog & ->). destruct a as [c u | c u e t l v]; cbn in Hg, Hlog.
    + apply cons_eq_inv in Hlog as [Hc Hlog]. apply cons_eq_inv in Hlog as [Hu Hrest].
      apply (f_equal answer_value) in Hc. apply (f_equal answer_float) in Hu.
      cbn in Hc, Hu. injection Hc as ->. injection Hu as ->. subst rest.
      apply negb_true_iff in Hg. rewrite Hg. auto.
    + apply cons_eq_inv in Hlog as [Hc Hlog]. apply cons_eq_inv in Hlog as [Hu Hrest].
      apply (f_equal answer_value) in Hc. apply (f_equal answer_float) in Hu.
      cbn in Hc, Hu. injection Hc as ->. injection Hu as ->. subst rest.
      rewrite Hg. exists e, t, l, v. auto.
  - destruct (MIN <=? upper)%float eqn:Hu.
    + intros (e & t & l & v & -> & ->). exists (Tested x upper e t l v). auto.
    + intros [-> ->]. exists (Skipped x upper). cbn. rewrite Hu. auto.
Qed.

(** C8, as the claim states it, fails in binary64: with the target equal to
    the proposal and [u = log q(x) = 100.0], [np.exp(100.0)] is
    2.6881171418161356e+43; the threshold 2.688117141816135e+43, the double
    just below it, lies strictly between 0 and [exp(u)], and its
    [np.log] rounds to 100.0.  The test [100.0 < 100.0] fails: the turn
    rejects its candidate and [draw] does not return on the first
    attempt. *)
Lemma equal_densities_first_candidate_rejected :
  (MIN <=? 0x1.9p+6)%float = true /\
  (0 <? 0x1.3494a9b171bf4p+144)%float = true /\
  (0x1.3494a9b171bf4p+144 <? 0x1.3494a9b171bf5p+144)%float = true /\
  exec (draw_body s_same)
    [Event (CallSampler "q_sample") (VScalar 0x1p-1);
     Event (CallLogpdf "q_logpdf" (VScalar 0x1p-1)) 0x1.9p+6%float;
     Event (NpExp 0x1.9p+6) 0x1.3494a9b171bf5p+144%float;
     Event (NpRandomUniform 0 0x1.3494a9b171bf5p+144)
           0x1.3494a9b171bf4p+144%float;
     Event (NpLog 0x1.3494a9b171bf4p+144) 0x1.9p+6%float;
     Event (CallLogpdf "q_logpdf" (VScalar 0x1p-1)) 0x1.9p+6%float]
    (inl tt) /\
  (forall x',
     ~ exec (draw s_same)
         [Event (CallSampler "q_sample") (VScalar 0x1p-1);
          Event (CallLogpdf "q_logpdf" (VScalar 0x1p-1)) 0x1.9p+6%float;
          Event (NpExp 0x1.9p+6) 0x1.3494a9b171bf5p+144%float;
          Event (NpRandomUniform 0 0x1.3494a9b171bf5p+144)
                0x1.3494a9b171bf4p+144%float;
          Event (NpLog 0x1.3494a9b171bf4p+144) 0x1.9p+6%float;
          Event (CallLogpdf "q_logpdf" (VScalar 0x1p-1)) 0x1.9p+6%float]
         x').
Proof.
  split; [reflexivity |]. split; [reflexivity |]. split; [reflexivity |]. split.
  - apply (draw_body_tested_turn s_same (VScalar 0x1p-1) 0x1.9p+6
             0x1.3494a9b171bf5p+144 0x1.3494a9b171bf4p+144 0x1.9p+6 0x1.9p+6).
    split; reflexivity.
  - intros x' H.
    apply (draw_tested_turn s_same (VScalar 0x1p-1) 0x1.9p+6
             0x1.3494a9b171bf5p+144 0x1.3494a9b171bf4p+144 0x1.9p+6 0x1.9p+6)
      in H as (_ & Hacc & _).
    discriminate.
Qed.

(** C8, amended.  With the target log-density equal to the proposal
    log-density, a turn of [draw] on a candidate [x] whose
    [u = log q(x)] is not below [MIN] accepts [x] exactly when the computed
    logarithm of its threshold, [np.log(t)] for the [t] drawn by
    [np.random.uniform(0.0, np.exp(u))], is strictly below [u] as a
    double; otherwise the turn rejects [x] and the loop goes round again.
    Accordingly [draw] returns on its first attempt exactly when that
    comparison holds, and then returns [x].  A threshold strictly between
    0 and [exp(u)] does not ensure it. *)
Theorem equal_densities_accept_iff_log_below
  self x upper e threshold log_threshold :
  (MIN <=? upper)%float = true ->
  (forall r,
     exec (draw_body self)
       [Event (CallSampler (propose_func self)) x;
        Event (CallLogpdf (propose_logpdf self) x) upper;
        Event (NpExp upper) e;
        Event (NpRandomUniform 0 e) threshold;
        Event (NpLog threshold) log_threshold;
        Event (CallLogpdf (target_logpdf self) x) upper] r <->
     r = if (log_threshold <? upper)%float then inr x else inl tt) /\
  (forall x',
     exec (draw self)
       [Event (CallSampler (propose_func self)) x;
        Event (CallLogpdf (propose_logpdf self) x) upper;
        Event (NpExp upper) e;
        Event (NpRandomUniform 0 e) threshold;
        Event (NpLog threshold) log_threshold;
        Event (CallLogpdf (target_logpdf self) x) upper] x' <->
     (log_threshold <? upper)%float = true /\ x' = x).
Proof.
  intros Hg. split.
  - intros r.
    rewrite (draw_body_tested_turn self x upper e threshold log_threshold upper r).
    split; [now intros [_ H] | auto].
  - intros x'.
    rewrite (draw_tested_turn self x upper e threshold log_threshold upper x').
    split; [now intros [_ H] | auto].
Qed.

(** C8, amended, on the two turns with [u = log q(x) = log p(x)]: the one
    with [u = 0] and threshold 0.5, which accepts, and the one with
    [u = 100.0] and the threshold just below [np.exp(100.0)], which
    rejects. *)
Lemma equal_densities_accept_iff_log_below_witness :
  (MIN <=? 0)%float = true /\
  exec (draw s0) log_half (VScalar 0x1p-1) /\
  (MIN <=? 0x1.9p+6)%float = true /\
  exec (draw_body s_same)
    [Event (CallSampler "q_sample") (VScalar 0x1p-1);
     Event (CallLogpdf "q_logpdf" (VScalar 0x1p-1)) 0x1.9p+6%float;
     Event (NpExp 0x1.9p+6) 0x1.3494a9b171bf5p+144%float;
     Event (NpRandomUniform 0 0x1.3494a9b171bf5p+144)
           0x1.3494a9b171bf4p+144%float;
     Event (NpLog 0x1.3494a9b171bf4p+144) 0x1.9p+6%float;
     Event (CallLogpdf "q_logpdf" (VScalar 0x1p-1)) 0x1.9p+6%float]
    (inl tt).
Proof.
  split; [reflexivity |]. split; [| split; [reflexivity |]].
  - apply (equal_densities_accept_iff_log_below s0 (VScalar 0x1p-1) 0 0x1p+0
             0x1p-1 (-0x1.62e42fefa39efp-1)); [reflexivity |].
    split; reflexivity.
  - apply (equal_densities_accept_iff_log_below s_same (VScalar 0x1p-1) 0x1.9p+6
             0x1.3494a9b171bf5p+144 0x1.3494a9b171bf4p+144 0x1.9p+6);
      reflexivity.
Defined.

(** ** [sample] *)

(** C1, as the claim states it, fails at [n = 0]: [sample(0)] runs a
    complete [draw()], allocates the empty buffer from it, and the store at
    index 0 raises [IndexError]; no execution returns a buffer or makes no
    call. *)
Lemma zero_count_draws_then_raises :
  exec (sample false s0 0 None)
    [Event (CallSampler "q_sample") (VScalar 0x1p-1);
     Event (CallLogpdf "q_logpdf" (VScalar 0x1p-1)) 0%float;
     Event (NpExp 0) 0x1p+0%float;
     Event (NpRandomUniform 0 0x1p+0) 0x1p-1%float;
     Event (NpLog 0x1p-1) (-0x1.62e42fefa39efp-1)%float;
     Event (CallLogpdf "p_logpdf" (VScalar 0x1p-1)) 0%float]
    (set_samples s0 (Some (Arr1 [])), inl IndexError) /\
  (forall log r, exec (sample false s0 0 None) log r ->
     log <> [] /\ snd r = inl IndexError).
Proof.
  split.
  - apply sample_exec. exists [(log_half, VScalar 0x1p-1)]. split; [| split].
    + constructor; [| constructor]. apply exec_draw_half. repeat split.
    + reflexivity.
    + reflexivity.
  - intros log r H. split.
    + apply sample_first_draw in H as (log1 & first & log2 & Hd & ->).
      apply draw_log_nonempty in Hd. cbn. destruct log1; [contradiction | discriminate].
    + apply sample_exec in H as (ds & _ & _ & Hrep). destruct r as [self' r].
      apply sample_replay_zero in Hrep as (first & a0 & _ & _ & _ & ->). reflexivity.
Qed.

(** C1, amended.  A buffer returned by [sample(n, seed)] has length [n]
    along its first axis; for [n >= 1], [n] completed draws whose values
    fit the buffer allocated from the first do give such a buffer; and for
    every [n], [n = 0] included, the call starts (after the seeding) with a
    complete [draw()], from which the shape is inferred. *)
Theorem returned_buffer_has_length_n size_one_converts self n seed :
  (forall log self' buf,
     exec (sample size_one_converts self n seed) log (self', inr buf) ->
     exists a, buf = Some a /\ samples self' = Some a /\
               first_axis a = Z.to_nat n) /\
  (forall ds first rest,
     1 <= n ->
     draws_of self ds ->
     List.map snd ds = first :: rest ->
     length rest = Z.to_nat (n - 1) ->
     Forall (fun x => fits size_one_converts first x = true) rest ->
     exists a,
       exec (sample size_one_converts self n seed)
            (seed_log seed ++ draws_log ds)
            (set_samples self (Some a), inr (Some a)) /\
       first_axis a = Z.to_nat n) /\
  (forall log r,
     exec (sample size_one_converts self n seed) log r ->
     exists log1 first log2,
       exec (draw self) log1 first /\ log = seed_log seed ++ log1 ++ log2).
Proof.
  assert (Hret : forall log self' buf,
     exec (sample size_one_converts self n seed) log (self', inr buf) ->
     exists a, buf = Some a /\ samples self' = Some a /\
               first_axis a = Z.to_nat n).
  { intros log self' buf H. apply sample_exec in H as (ds & _ & _ & Hrep).
    destruct (Z.ltb_spec n 0) as [Hneg | Hnn].
    { apply (sample_replay_negative _ _ _ _ _ _ Hneg) in Hrep as (? & _ & _ & ?).
      discriminate. }
    destruct (Z.eqb_spec n 0) as [-> | Hn0].
    { apply sample_replay_zero in Hrep as (? & ? & _ & _ & _ & ?). discriminate. }
    apply sample_replay_positive in Hrep; [| lia].
    destruct Hrep as (first & rest & a0 & a' & _ & _ & Hsh0 & _ & -> & Hsh & _ & H).
    destruct H as [(Hr & _) | (Hr & _)]; [| discriminate].
    injection Hr as ->. exists a'. repeat split.
    rewrite (first_axis_shape _ _ Hsh). now apply first_shape_first_axis in Hsh0. }
  split; [exact Hret |]. split.
  - intros ds first rest Hn Hds Hxs Hlen Hfits.
    destruct (sample_replay_ok size_one_converts self n first rest Hn Hlen Hfits)
      as [a Ha].
    assert (Hex : exec (sample size_one_converts self n seed)
                    (seed_log seed ++ draws_log ds)
                    (set_samples self (Some a), inr (Some a))).
    { apply sample_exec. exists ds. rewrite Hxs. auto. }
    exists a. split; [exact Hex |].
    apply Hret in Hex as (a1 & [= <-] & _ & Hax). exact Hax.
  - intros log r H. apply sample_first_draw in H as (log1 & first & log2 & H).
    exists log1, first, log2. exact H.
Qed.

(** C1, amended, at [n = 2]: two accepted draws of the scalar 0.5 return a
    buffer of length 2. *)
Lemma returned_buffer_has_length_n_witness :
  1 <= 2 /\
  exists a,
    exec (sample false s0 2 None) (seed_log None ++ (log_half ++ log_half))
         (set_samples s0 (Some a), inr (Some a)) /\
    first_axis a = Z.to_nat 2.
Proof.
  split; [lia |].
  destruct (returned_buffer_has_length_n false s0 2 None) as (_ & Hgives & _).
  apply (Hgives [(log_half, VScalar 0x1p-1); (log_half, VScalar 0x1p-1)]
                (VScalar 0x1p-1) [VScalar 0x1p-1]).
  - lia.
  - repeat constructor; apply exec_draw_half; repeat split.
  - reflexivity.
  - reflexivity.
  - repeat constructor.
Defined.

(** C2, as the claim states it, fails: [sample(-1)] raises [ValueError]
    only after a complete [draw()], which called the proposal sampler and
    both log-densities; no execution of it has an empty log. *)
Lemma negative_count_fails_after_calls :
  exec (sample false s0 (-1) None)
    [Event (CallSampler "q_sample") (VScalar 0x1p-1);
     Event (CallLogpdf "q_logpdf" (VScalar 0x1p-1)) 0%float;
     Event (NpExp 0) 0x1p+0%float;
     Event (NpRandomUniform 0 0x1p+0) 0x1p-1%float;
     Event (NpLog 0x1p-1) (-0x1.62e42fefa39efp-1)%float;
     Event (CallLogpdf "p_logpdf" (VScalar 0x1p-1)) 0%float]
    (s0, inl ValueError) /\
  (forall log r, exec (sample false s0 (-1) None) log r -> log <> []).
Proof.
  split.
  - apply sample_exec. exists [(log_half, VScalar 0x1p-1)]. split; [| split].
    + constructor; [| constructor]. apply exec_draw_half. repeat split.
    + reflexivity.
    + reflexivity.
  - intros log r H. apply sample_first_draw in H as (log1 & first & log2 & Hd & ->).
    apply draw_log_nonempty in Hd. cbn. destruct log1; [contradiction | discriminate].
Qed.

(** C2, amended.  For a negative [n], [sample(n, seed)] fails with
    [ValueError], raised by the allocation of the buffer: after the seeding
    and one complete [draw()], before any store, and leaving the sampler as
    it was. *)
Theorem negative_count_fails_after_first_draw
  size_one_converts self n seed log r :
  n < 0 ->
  (exec (sample size_one_converts self n seed) log r <->
   exists log1 first,
     exec (draw self) log1 first /\
     log = seed_log seed ++ log1 /\
     r = (self, inl ValueError)).
Proof.
  intros Hn. rewrite sample_exec. split.
  - intros (ds & Hds & -> & Hrep). destruct r as [self' r].
    apply (sample_replay_negative _ _ _ _ _ _ Hn) in Hrep as (first & Hxs & -> & ->).
    destruct ds as [| [log1 x] [| d ds]]; try discriminate.
    injection Hxs as ->. inversion Hds as [| ? ? Hd _]; subst.
    exists log1, first. unfold draws_log. cbn. rewrite app_nil_r. auto.
  - intros (log1 & first & Hd & -> & ->).
    exists [(log1, first)]. unfold draws_log. cbn. rewrite app_nil_r.
    split; [constructor; [exact Hd | constructor] |]. split; [reflexivity |].
    unfold sample_replay. now rewrite (allocate_negative _ _ Hn).
Qed.

(** C2, amended, at [n = -1] with the seed 42. *)
Lemma negative_count_fails_after_first_draw_witness :
  -1 < 0 /\
  (exec (sample false s0 (-1) (Some 42)) (seed_log (Some 42) ++ log_half)
        (s0, inl ValueError) <->
   exists log1 first,
     exec (draw s0) log1 first /\
     seed_log (Some 42) ++ log_half = seed_log (Some 42) ++ log1 /\
     (s0, @inl exn (option ndarray) ValueError) = (s0, inl ValueError)).
Proof.
  split; [lia |].
  apply (negative_count_fails_after_first_draw false s0 (-1) (Some 42)). lia.
Defined.



(** C6.  In [sample(n, seed)] with [n >= 1], whatever the first draw
    returns, the buffer allocated from it has shape [(n,)] when it is a
    scalar and [(n, d)] when it is a sequence of length [d], and the store
    at index 0 succeeds and puts the first draw there; the buffer the
    sampler holds when the call ends, normally or not, has that shape and
    holds the first draw at index 0. *)
Theorem first_draw_fixes_shape size_one_converts self n seed :
  1 <= n ->
  (forall first,
     exists a0 a1,
       allocate n first = inr a0 /\
       shape a0 = match first with
                  | VScalar _ => [Z.to_nat n]
                  | VSeq l => [Z.to_nat n; length l]
                  end /\
       setitem_samples size_one_converts (set_samples self (Some a0)) 0 first =
         inr (set_samples self (Some a1)) /\
       shape a1 = shape a0 /\
       getitem a1 0 = Some match first with
                           | VScalar f => ICell (Some f)
                           | VSeq l => IRow (List.map Some l)
                           end) /\
  (forall log self' r,
     exec (sample size_one_converts self n seed) log (self', r) ->
     exists log1 first log2 a0 a,
       log = seed_log seed ++ log1 ++ log2 /\
       exec (draw self) log1 first /\
       allocate n first = inr a0 /\
       shape a0 = match first with
                  | VScalar _ => [Z.to_nat n]
                  | VSeq l => [Z.to_nat n; length l]
                  end /\
       samples self' = Some a /\
       shape a = shape a0 /\
       getitem a 0 = Some match first with
                          | VScalar f => ICell (Some f)
                          | VSeq l => IRow (List.map Some l)
                          end /\
       (forall buf, r = inr buf -> buf = Some a)).
Proof.
  intros Hn. split.
  - intros first. destruct (allocate_nonneg n first) as [a0 Halloc]; [lia |].
    pose proof (allocate_ok size_one_converts _ _ _ Halloc)
      as (_ & Hsh0 & Hfirst & _).
    pose proof (first_shape_first_axis _ _ _ Hsh0) as Hax.
    pose proof (setitem_samples_Some size_one_converts
                  (set_samples self (Some a0)) a0 0 first eq_refl) as Hstore.
    pose proof (np_setitem_cases size_one_converts a0 0 first) as Hcases.
    destruct (np_setitem size_one_converts a0 (Z.of_nat 0) first)
      as [e | a1] eqn:Hset.
    { destruct e; [destruct Hcases; congruence | lia | contradiction]. }
    apply np_setitem_ok in Hset as (_ & Hsh1 & _ & Hget & _).
    exists a0, a1. split; [exact Halloc |]. split; [exact Hsh0 |].
    split; [exact Hstore |]. split; [exact Hsh1 |].
    rewrite Hget. exact Hfirst.
  - intros log self' r H. apply sample_exec in H as (ds & Hds & -> & Hrep).
    apply sample_replay_positive in Hrep; [| exact Hn].
    destruct Hrep
      as (first & rest & a0 & a' & Hxs & Halloc & Hsh0 & _ & -> & Hsh & H0 & H).
    destruct ds as [| [log1 x] ds]; [discriminate |]. injection Hxs as -> Hrest.
    inversion Hds as [| ? ? Hd _]; subst.
    exists log1, first, (draws_log ds), a0, a'.
    repeat split; try assumption.
    destruct H as [(-> & _) | (-> & _)]; intros buf [= <-]. reflexivity.
Qed.

(** C6 on the batch of one draw of the scalar 0.5: shape [(1,)], 0.5 at
    index 0. *)
Lemma first_draw_fixes_shape_witness :
  1 <= 1 /\
  exists log1 first log2 a0 a,
    log_half = seed_log None ++ log1 ++ log2 /\
    exec (draw s0) log1 first /\
    allocate 1 first = inr a0 /\
    shape a0 = match first with
               | VScalar _ => [Z.to_nat 1]
               | VSeq l => [Z.to_nat 1; length l]
               end /\
    samples (set_samples s0 (Some (Arr1 [Some 0x1p-1%float]))) = Some a /\
    shape a = shape a0 /\
    getitem a 0 = Some match first with
                       | VScalar f => ICell (Some f)
                       | VSeq l => IRow (List.map Some l)
                       end /\
    (forall buf, @inr exn _ (Some (Arr1 [Some 0x1p-1%float])) = inr buf ->
                 buf = Some a).
Proof.
  split; [lia |].
  destruct (first_draw_fixes_shape false s0 1 None) as [_ Hends]; [lia |].
  apply Hends.
  apply sample_exec. exists [(log_half, VScalar 0x1p-1)]. split; [| split].
  - constructor; [| constructor]. apply exec_draw_half. repeat split.
  - reflexivity.
  - reflexivity.
Defined.

(** C7, as the claim states it, fails: in [sample(2)], a first draw that is
    the pair [1.0, 2.0] fixes the shape [(2, 2)]; a second draw that is the
    scalar 3.0 disagrees with it, and the batch does not fail: the scalar is
    broadcast over the row and the buffer [[1, 2], [3, 3]] is returned. *)
Lemma scalar_after_sequence_is_broadcast :
  exec (sample false s0 2 None) (log_pair ++ log_three)
    (set_samples s0
       (Some (Arr2 2 [[Some 0x1p+0; Some 0x1p+1];
                      [Some 0x1.8p+1; Some 0x1.8p+1]]%float)),
     inr (Some (Arr2 2 [[Some 0x1p+0; Some 0x1p+1];
                        [Some 0x1.8p+1; Some 0x1.8p+1]]%float))).
Proof.
  apply sample_exec.
  exists [(log_pair, VSeq [0x1p+0; 0x1p+1]%float); (log_three, VScalar 0x1.8p+1)].
  split; [| split].
  - repeat constructor; [apply exec_draw_pair | apply exec_draw_three].
  - reflexivity.
  - reflexivity.
Qed.

(** C7, amended.  For [n >= 2], a batch ends in exactly one of two ways.
    It returns its buffer when each of the [n - 1] later draws fits the
    buffer allocated from the first: a scalar always fits (in a row of
    length [d] it is repeated [d] times), a sequence fits a row of length
    [d] when its length is [d] or 1, and a sequence fits a scalar slot only
    when it has one element and NumPy converts it.  It fails with
    [ValueError] at the first later draw that does not fit: that draw is
    the last call of the batch, and nothing is returned. *)
Theorem batch_fails_at_first_unfit_draw size_one_converts self n seed :
  2 <= n ->
  (forall log self' r,
     exec (sample size_one_converts self n seed) log (self', r) ->
     exists ds first rest,
       draws_of self ds /\ log = seed_log seed ++ draws_log ds /\
       List.map snd ds = first :: rest /\
       ((exists a, r = inr (Some a) /\ length rest = Z.to_nat (n - 1) /\
                   forallb (fits size_one_converts first) rest = true)
        \/
        (r = inl ValueError /\
         exists ok bad,
           rest = ok ++ [bad] /\ (length ok < Z.to_nat (n - 1))%nat /\
           forallb (fits size_one_converts first) ok = true /\
           fits size_one_converts first bad = false))) /\
  (forall ds first ok bad,
     draws_of self ds ->
     List.map snd ds = first :: ok ++ [bad] ->
     (length ok < Z.to_nat (n - 1))%nat ->
     forallb (fits size_one_converts first) ok = true ->
     fits size_one_converts first bad = false ->
     exists a,
       exec (sample size_one_converts self n seed)
            (seed_log seed ++ draws_log ds)
            (set_samples self (Some a), inl ValueError)) /\
  (forall first x,
     fits size_one_converts first x =
     match first, x with
     | _, VScalar _ => true
     | VScalar _, VSeq l => (length l =? 1)%nat && size_one_converts
     | VSeq l0, VSeq l => (length l =? length l0)%nat || (length l =? 1)%nat
     end).
Proof.
  intros Hn. split; [| split].
  - intros log self' r H. apply sample_exec in H as (ds & Hds & -> & Hrep).
    apply sample_replay_positive in Hrep; [| lia].
    destruct Hrep as (first & rest & a0 & a' & Hxs & _ & _ & _ & _ & _ & _ & H).
    exists ds, first, rest. repeat split; try assumption.
    destruct H as [(-> & Hlen & Hitems) | (-> & ok & bad & -> & Hlen & Hbad & Hitems & _)].
    + left. exists a'. repeat split; [exact Hlen |].
      apply forallb_forall. intros x Hx. apply In_nth_error in Hx as [j Hj].
      now apply Hitems in Hj.
    + right. split; [reflexivity |]. exists ok, bad. repeat split; try assumption.
      apply forallb_forall. intros x Hx. apply In_nth_error in Hx as [j Hj].
      now apply Hitems in Hj.
  - intros ds first ok bad Hds Hxs Hlen Hok Hbad.
    destruct (sample_replay_fail size_one_converts self n first ok bad) as [a Ha];
      try assumption; [lia | |].
    + apply Forall_forall. intros x Hx.
      rewrite forallb_forall in Hok. now apply Hok.
    + exists a. apply sample_exec. exists ds. rewrite Hxs. auto.
  - apply fits_cases.
Qed.

(** C7, amended, at [n = 3]: a scalar first, then the pair [1.0, 2.0],
    which does not fit a scalar slot; the third draw is never made. *)
Lemma batch_fails_at_first_unfit_draw_witness :
  2 <= 3 /\
  exists a,
    exec (sample false s0 3 None)
         (seed_log None ++ draws_log [(log_half, VScalar 0x1p-1);
                                      (log_pair, VSeq [0x1p+0; 0x1p+1]%float)])
         (set_samples s0 (Some a), inl ValueError).
Proof.
  split; [lia |].
  destruct (batch_fails_at_first_unfit_draw false s0 3 None) as (_ & Hfails & _);
    [lia |].
  apply (Hfails _ (VScalar 0x1p-1) [] (VSeq [0x1p+0; 0x1p+1]%float)).
  - repeat constructor; [apply exec_draw_half; repeat split | apply exec_draw_pair].
  - reflexivity.
  - cbn. lia.
  - reflexivity.
  - reflexivity.
Defined.

(** C10, as the claim states it, fails: a call that fails at the
    allocation, [sample(-1)], on a sampler that holds a buffer from an
    earlier batch, leaves that buffer in place. *)
Lemma failed_allocation_keeps_old_buffer :
  exec (sample false s_old (-1) None)
    [Event (CallSampler "q_sample") (VScalar 0x1p-1);
     Event (CallLogpdf "q_logpdf" (VScalar 0x1p-1)) 0%float;
     Event (NpExp 0) 0x1p+0%float;
     Event (NpRandomUniform 0 0x1p+0) 0x1p-1%float;
     Event (NpLog 0x1p-1) (-0x1.62e42fefa39efp-1)%float;
     Event (CallLogpdf "p_logpdf" (VScalar 0x1p-1)) 0%float]
    (s_old, inl ValueError) /\
  samples s_old = Some (Arr1 [Some 0x1p-2%float; Some 0x1.8p-1%float]).
Proof.
  split; [| reflexivity].
  apply sample_exec. exists [(log_half, VScalar 0x1p-1)]. split; [| split].
  - constructor; [| constructor]. apply exec_draw_half. repeat split.
  - reflexivity.
  - reflexivity.
Qed.

(** C10, amended.  When [sample(n, seed)] with [n >= 0] fails, it fails at
    a store, and the buffer the sampler held before is gone: the sampler
    holds the buffer allocated in this call from the first draw, with the
    draws made before the failing one stored from index 0 on and the
    remaining items unassigned.  For [n = 0] that is the empty buffer (the
    failure is the [IndexError] of the store at index 0); for [n >= 1] the
    failure is the [ValueError] of a draw that does not fit.  A call with
    [n < 0] fails at the allocation and leaves the sampler as it was. *)
Theorem failed_store_replaces_buffer size_one_converts self n seed log self' e :
  exec (sample size_one_converts self n seed) log (self', inl e) ->
  (n < 0 -> self' = self /\ e = ValueError) /\
  (0 <= n ->
   exists ds first rest a0 a,
     draws_of self ds /\ log = seed_log seed ++ draws_log ds /\
     List.map snd ds = first :: rest /\
     allocate n first = inr a0 /\
     self' = set_samples self (Some a) /\ shape a = shape a0 /\
     (n = 0 -> rest = [] /\ a = a0 /\ e = IndexError) /\
     (1 <= n ->
      e = ValueError /\
      getitem a 0 = stored size_one_converts a0 first /\
      exists ok bad,
        rest = ok ++ [bad] /\
        stored size_one_converts a0 bad = None /\
        (forall j x, nth_error ok j = Some x ->
           stored size_one_converts a0 x <> None /\
           getitem a (S j) = stored size_one_converts a0 x) /\
        (forall i, (S (length ok) <= i < Z.to_nat n)%nat ->
           getitem a i = Some (blank a0)))).
Proof.
  intros H. apply sample_exec in H as (ds & Hds & -> & Hrep). split.
  - intros Hn.
    apply (sample_replay_negative _ _ _ _ _ _ Hn) in Hrep as (_ & _ & -> & [= ->]).
    auto.
  - intros Hn. destruct (Z.eqb_spec n 0) as [-> | Hn0].
    + apply sample_replay_zero in Hrep as (first & a0 & Hxs & Halloc & -> & [= ->]).
      exists ds, first, [], a0, a0. repeat split; try assumption; lia.
    + apply sample_replay_positive in Hrep; [| lia].
      destruct Hrep as (first & rest & a0 & a' & Hxs & Halloc & Hsh0 & Hfirst
                        & -> & Hsh & H0 & H).
      exists ds, first, rest, a0, a'.
      repeat split; try assumption; try lia.
      * destruct H as [(H & _) | (H & _)]; congruence.
      * congruence.
      * destruct H as [(H & _) | (_ & ok & bad & -> & _ & Hbad & Hitems & Hblank)];
          [discriminate |].
        exists ok, bad. split; [reflexivity |]. split.
        { now apply (fits_stored_false _ a0 n first). }
        split; [| exact Hblank].
        intros j x Hx. apply Hitems in Hx as [Hfit Hget].
        split; [now apply (fits_stored _ a0 n first) | exact Hget].
Qed.

(** C10, amended, at [n = 0] on the sampler that holds [old_buffer]: the
    failed call leaves the empty buffer in its place. *)
Lemma failed_store_replaces_buffer_witness :
  (0 < 0 -> set_samples s_old (Some (Arr1 [])) = s_old /\ IndexError = ValueError) /\
  (0 <= 0 ->
   exists ds first rest a0 a,
     draws_of s_old ds /\ seed_log None ++ log_half = seed_log None ++ draws_log ds /\
     List.map snd ds = first :: rest /\
     allocate 0 first = inr a0 /\
     set_samples s_old (Some (Arr1 [])) = set_samples s_old (Some a) /\
     shape a = shape a0 /\
     (0 = 0 -> rest = [] /\ a = a0 /\ IndexError = IndexError) /\
     (1 <= 0 ->
      IndexError = ValueError /\
      getitem a 0 = stored false a0 first /\
      exists ok bad,
        rest = ok ++ [bad] /\
        stored false a0 bad = None /\
        (forall j x, nth_error ok j = Some x ->
           stored false a0 x <> None /\
           getitem a (S j) = stored false a0 x) /\
        (forall i, (S (length ok) <= i < Z.to_nat 0)%nat ->
           getitem a i = Some (blank a0)))).
Proof.
  apply (failed_store_replaces_buffer false s_old 0 None).
  apply sample_exec. exists [(log_half, VScalar 0x1p-1)]. split; [| split].
  - constructor; [| constructor]. apply exec_draw_half. repeat split.
  - reflexivity.
  - reflexivity.
Defined.

(** ** Reproducibility *)

(** C9.  In a deterministic environment, [sample(n, seed)] with a seed does
    the same whatever the generator state it starts from and whatever
    buffer the sampler holds from earlier calls: two such calls on the same
    sampler both diverge, or end with the same exception or the same
    buffer, and leave the generator in the same state.  Every execution of
    the call seeds the generator exactly once, as its first call. *)
Theorem seeded_sample_is_reproducible
  (G : Type) (seed_state : Z -> G)
  (uniform : float -> float -> G -> G * float)
  (call_sampler : callable -> G -> G * value)
  (call_logpdf : callable -> value -> G -> G * float)
  (np_exp np_log : float -> float)
  size_one_converts self n seed old g1 g2 :
  let env :=
    seeded_env seed_state uniform call_sampler call_logpdf np_exp np_log in
  eutt same_outcome
    (interp_state env (sample size_one_converts self n (Some seed)) g1)
    (interp_state env
       (sample size_one_converts (set_samples self old) n (Some seed)) g2) /\
  (forall log r,
     exec (sample size_one_converts self n (Some seed)) log r ->
     exists rest,
       log = Event (NpRandomSeed seed) tt :: rest /\
       Forall (fun ev => is_seed_call ev = false) rest).
Proof.
  intros env. split.
  - unfold sample.
    rewrite 2 interp_state_bind, 2 interp_state_trigger. cbn.
    rewrite 2 bind_ret_l. cbn.
    change (draw (set_samples self old)) with (draw self).
    rewrite 2 interp_state_bind.
    eapply eutt_clo_bind with (UU := eq); [reflexivity |].
    intros [g first] ? <-. cbn.
    destruct (allocate n first) as [e | a].
    + rewrite 2 interp_state_ret. apply eqit_Ret. split; reflexivity.
    + cbn. eapply eutt_subrel; [| reflexivity].
      intros o ? <-. split; reflexivity.
  - intros log r H. apply sample_exec in H as (ds & Hds & -> & _).
    exists (draws_log ds). split; [reflexivity |].
    exact (draws_no_seed_call _ _ Hds).
Qed.

(** * Lemmas for the further properties *)

(** ** The executions of [plot] *)

Lemma logpdf_each_exec f xs : forall log ys,
  exec (logpdf_each f xs) log ys <->
  length ys = length xs /\ log = logpdf_each_log f xs ys.
Proof.
  induction xs as [| x xs IH]; intros log ys; cbn [logpdf_each]; split.
  - intros H. apply exec_Ret_inv in H as [-> ->]. split; reflexivity.
  - intros [Hlen ->]. destruct ys; [| discriminate]. apply exec_Ret.
  - intros H. exec_step H. rename x0 into y.
    apply exec_bind_inv in H as (logr & ys' & loge & -> & Hrest & H).
    apply exec_Ret_inv in H as [-> ->]. apply IH in Hrest as [Hlen ->].
    split; [cbn; congruence |]. rewrite app_nil_r. reflexivity.
  - intros [Hlen ->]. destruct ys as [| y ys]; [discriminate |].
    injection Hlen as Hlen. unfold logpdf_each_log. cbn [combine List.map fst snd].
    exec_call. rewrite <- (app_nil_r (List.map _ _)).
    apply exec_bind with (x := ys); [| apply exec_Ret].
    apply IH. split; [exact Hlen | reflexivity].
Qed.

Ltac exec_unit H :=
  let u := fresh "u" in
  let l1 := fresh "log" in
  let l2 := fresh "log" in
  let H1 := fresh "Hcall" in
  apply exec_bind_inv in H as (l1 & u & l2 & -> & H1 & H);
  destruct u; apply exec_trigger_inv in H1 as ->.

(** The executions of [plot]: either a guard raises before any call, or
    all the calls are made, in the order of the source. *)
Lemma plot_exec self x_min x_max y_max log r :
  exec (plot self x_min x_max y_max) log r <->
  match samples self with
  | None => log = [] /\ r = inl no_samples_yet
  | Some a =>
      if more_than_one_column a then log = [] /\ r = inl too_many_dimensions
      else
        r = inr tt /\
        exists X Yp0 Yp Yt0 Yt,
          length Yp0 = length X /\ length Yt0 = length X /\
          log = plot_log self a x_min x_max y_max X Yp0 Yp Yt0 Yt
  end.
Proof.
  unfold plot. destruct (samples self) as [a |].
  2:{ split; [intros H; now apply exec_Ret_inv in H | intros [-> ->]; apply exec_Ret]. }
  destruct (more_than_one_column a).
  { split; [intros H; now apply exec_Ret_inv in H | intros [-> ->]; apply exec_Ret]. }
  split.
  - intros H. exec_step H. rename x into X.
    apply exec_bind_inv in H as (logp & Yp0 & logp' & -> & Hp & H).
    apply logpdf_each_exec in Hp as [Hlenp ->].
    exec_step H. rename x into Yp.
    apply exec_bind_inv in H as (logt & Yt0 & logt' & -> & Ht & H).
    apply logpdf_each_exec in Ht as [Hlent ->].
    exec_step H. rename x into Yt.
    do 8 exec_unit H.
    apply exec_Ret_inv in H as [-> ->].
    split; [reflexivity |]. exists X, Yp0, Yp, Yt0, Yt.
    split; [exact Hlenp |]. split; [exact Hlent |]. reflexivity.
  - intros (-> & X & Yp0 & Yp & Yt0 & Yt & Hlenp & Hlent & ->).
    unfold plot_log. exec_call.
    apply exec_bind with (x := Yp0); [now apply logpdf_each_exec |].
    exec_call.
    apply exec_bind with (x := Yt0); [now apply logpdf_each_exec |].
    do 9 exec_call. apply exec_Ret.
Qed.

(** ** Comparisons of floats *)

(** Nothing is below minus infinity. *)
Lemma ltb_neg_infinity (l : float) : (l <? neg_infinity)%float = false.
Proof.
  rewrite FloatAxioms.ltb_spec. change (Prim2SF neg_infinity) with (S754_infinity true).
  destruct (Prim2SF l) as [s | [|] | | s m e]; reflexivity.
Qed.

(** Nothing is above plus infinity. *)
Lemma ltb_infinity_l (v : float) : (infinity <? v)%float = false.
Proof.
  rewrite FloatAxioms.ltb_spec. change (Prim2SF infinity) with (S754_infinity false).
  destruct (Prim2SF v) as [s | [|] | | s m e]; reflexivity.
Qed.

Lemma SFeqb_refl (x : spec_float) : x <> S754_nan -> SFeqb x x = true.
Proof.
  destruct x as [s | s | | s m e]; intros Hx; try contradiction.
  - reflexivity.
  - now destruct s.
  - unfold SFeqb, SFcompare. rewrite Z.compare_refl.
    change (Pos.compare_cont Eq m m) with (Pos.compare m m).
    rewrite Pos.compare_refl. now destruct s.
Qed.

(** A comparison that holds has no NaN operand. *)
Lemma ltb_not_nan (l v : float) :
  (l <? v)%float = true -> is_nan l = false /\ is_nan v = false.
Proof.
  unfold is_nan. rewrite FloatAxioms.ltb_spec, 2 FloatAxioms.eqb_spec.
  intros H. split; apply negb_false_iff, SFeqb_refl; intros Hnan; rewrite Hnan in H.
  - discriminate.
  - now destruct (Prim2SF l) as [? | ? | | ? ? ?].
Qed.

Lemma leb_not_nan (l v : float) :
  (l <=? v)%float = true -> is_nan l = false /\ is_nan v = false.
Proof.
  unfold is_nan. rewrite FloatAxioms.leb_spec, 2 FloatAxioms.eqb_spec.
  intros H. split; apply negb_false_iff, SFeqb_refl; intros Hnan; rewrite Hnan in H.
  - discriminate.
  - now destruct (Prim2SF l) as [? | ? | | ? ? ?].
Qed.

Lemma eqb_neg_infinity_of_ltb (l v : float) :
  (l <? v)%float = true -> (v =? neg_infinity)%float = false.
Proof.
  intros H. rewrite FloatAxioms.eqb_spec. rewrite FloatAxioms.ltb_spec in H.
  change (Prim2SF neg_infinity) with (S754_infinity true).
  destruct (Prim2SF v) as [s | [|] | | s m e]; try reflexivity.
  now destruct (Prim2SF l) as [? | [|] | | ? ? ?].
Qed.

Lemma eqb_infinity_of_ltb (l v : float) :
  (l <? v)%float = true -> (l =? infinity)%float = false.
Proof.
  intros H. rewrite FloatAxioms.eqb_spec. rewrite FloatAxioms.ltb_spec in H.
  change (Prim2SF infinity) with (S754_infinity false).
  destruct (Prim2SF l) as [s | [|] | | s m e]; try reflexivity.
  now destruct (Prim2SF v) as [? | [|] | | ? ? ?].
Qed.

(** ** The guards of [plot] *)

Lemma more_than_one_column_shape a :
  more_than_one_column a = true <->
  exists n d, shape a = [n; d] /\ (2 <= d)%nat.
Proof.
  unfold more_than_one_column, ndim.
  destruct a as [cells | d rows]; cbn [shape length nth Nat.eqb andb].
  - split; [discriminate | intros (n & d & [=] & _)].
  - rewrite Nat.ltb_lt. split.
    + intros H. exists (length rows), d. split; [reflexivity | lia].
    + intros (n & d' & [= _ <-] & H). lia.
Qed.

Lemma more_than_one_column_wide a n first :
  shape a = first_shape n first -> more_than_one_column a = wide first.
Proof.
  intros H. unfold more_than_one_column, ndim. rewrite H.
  now destruct first.
Qed.

Lemma logpdf_each_log_ok self f xs ys :
  f = propose_logpdf self \/ f = target_logpdf self ->
  Forall (plot_call_ok self) (logpdf_each_log f xs ys).
Proof.
  intros Hf. apply Forall_forall. intros ev Hev.
  apply in_map_iff in Hev as ([x y] & <- & _). exact Hf.
Qed.

(** ** The buffer [sample] leaves *)

Lemma stored_filled b a x it :
  stored b a x = Some it -> filled it = true /\ item_of a it = true.
Proof.
  assert (Hrep : forall f d, forallb assigned (repeat (Some f) d) = true).
  { intros f d. induction d; [reflexivity | exact IHd]. }
  destruct a as [cells | d rows]; cbn.
  - destruct x as [f | [| f [| ? ?]]]; cbn; try discriminate.
    + intros [= <-]. split; reflexivity.
    + destruct b; [| discriminate]. intros [= <-]. split; reflexivity.
  - destruct x as [f | l]; cbn.
    + intros [= <-]. cbn. rewrite repeat_length, Nat.eqb_refl. auto.
    + destruct (Nat.eqb_spec (length l) d) as [Hl | Hl].
      * intros [= <-]. cbn. rewrite length_map, Hl, Nat.eqb_refl. split; [| reflexivity].
        apply forallb_forall. intros c Hc. now apply in_map_iff in Hc as (f & <- & _).
      * destruct l as [| f [| ? ?]]; try discriminate.
        intros [= <-]. cbn. rewrite repeat_length, Nat.eqb_refl. auto.
Qed.

(** What a call with [n >= 0] leaves in the sampler, however it ends. *)
Lemma sample_leaves_buffer b self n seed log self' r :
  0 <= n ->
  exec (sample b self n seed) log (self', r) ->
  exists d ds a,
    draws_of self (d :: ds) /\ log = seed_log seed ++ draws_log (d :: ds) /\
    self' = set_samples self (Some a) /\ shape a = first_shape n (snd d).
Proof.
  intros Hn H. apply sample_exec in H as (ds & Hds & -> & Hrep).
  apply sample_replay_inv in Hrep as (first & rest & Hxs & Hrep).
  destruct ds as [| d ds]; [discriminate |]. injection Hxs as Hd Hrest.
  destruct (allocate n first) as [e | a0] eqn:Halloc; [lia |].
  destruct Hrep as (_ & a' & -> & Hsh & _).
  apply (allocate_ok b) in Halloc as (_ & Hsh0 & _).
  exists d, ds, a'. rewrite Hd. repeat split; try assumption. congruence.
Qed.

Lemma sample_replay_frame b self old n xs :
  0 <= n ->
  sample_replay b (set_samples self old) n xs = sample_replay b self n xs.
Proof.
  intros Hn. destruct xs as [| first xs]; [reflexivity |]. cbn.
  destruct (allocate_nonneg n first Hn) as [a ->].
  now rewrite set_samples_twice.
Qed.

Lemma count_calls_app k l1 l2 :
  count_calls k (l1 ++ l2) = (count_calls k l1 + count_calls k l2)%nat.
Proof. unfold count_calls. now rewrite filter_app, length_app. Qed.

Lemma count_calls_none k log :
  Forall (fun ev => call_kind_eqb (kind_of ev) k = false) log ->
  count_calls k log = O.
Proof.
  unfold count_calls. induction 1 as [| ev log Hev _ IH]; [reflexivity |].
  cbn. now rewrite Hev.
Qed.

(** ** The calls of a draw, counted *)

Lemma leb_MIN_finite (upper : float) :
  (MIN <=? upper)%float = true ->
  is_nan upper = false /\ (upper =? neg_infinity)%float = false.
Proof.
  intros H. split; [now apply leb_not_nan in H |].
  rewrite FloatAxioms.eqb_spec. rewrite FloatAxioms.leb_spec in H.
  change (Prim2SF neg_infinity) with (S754_infinity true).
  destruct (Prim2SF upper) as [s | [|] | | s m e]; try reflexivity.
  vm_compute in H. discriminate.
Qed.

Lemma attempt_log_counts self a :
  count_calls KSampler (attempt_log self a) = 1%nat /\
  count_calls KLogpdf (attempt_log self a) =
    (1 + tested_turns [a])%nat /\
  count_calls KExp (attempt_log self a) = tested_turns [a] /\
  count_calls KUniform (attempt_log self a) = tested_turns [a] /\
  count_calls KLog (attempt_log self a) = tested_turns [a] /\
  count_calls KSeed (attempt_log self a) = O.
Proof. destruct a; repeat split. Qed.

Lemma tested_turns_cons a turns :
  tested_turns (a :: turns) = (tested_turns [a] + tested_turns turns)%nat.
Proof. unfold tested_turns. cbn. now destruct (went_to_test a). Qed.

Lemma tested_turns_le turns : (tested_turns turns <= length turns)%nat.
Proof. apply filter_length_le. Qed.

Lemma turns_log_counts self turns :
  let log := flat_map (attempt_log self) turns in
  count_calls KSampler log = length turns /\
  count_calls KLogpdf log = (length turns + tested_turns turns)%nat /\
  count_calls KExp log = tested_turns turns /\
  count_calls KUniform log = tested_turns turns /\
  count_calls KLog log = tested_turns turns /\
  count_calls KSeed log = O.
Proof.
  induction turns as [| a turns IH]; [repeat split |].
  cbn zeta in *. cbn [flat_map length]. rewrite !count_calls_app, tested_turns_cons.
  destruct IH as (-> & -> & -> & -> & -> & ->).
  destruct (attempt_log_counts self a) as (-> & -> & -> & -> & -> & ->).
  repeat split; lia.
Qed.

Lemma attempt_log_uniform_from_zero self a :
  Forall (fun ev => forall low high,
            uniform_bounds ev = Some (low, high) -> low = 0%float)
         (attempt_log self a).
Proof.
  destruct a; repeat constructor; cbn; try discriminate.
  now intros low high [= <- _].
Qed.

(** ** [draw] and [sample] in a deterministic environment *)

Section SeededRunFacts.

Variable G : Type.
Variable seed_state : Z -> G.
Variable uniform : float -> float -> G -> G * float.
Variable call_sampler : callable -> G -> G * value.
Variable call_logpdf : callable -> value -> G -> G * float.
Variable np_exp : float -> float.
Variable np_log : float -> float.
Variable size_one_converts : bool.

Local Abbreviation env :=
  (seeded_env seed_state uniform call_sampler call_logpdf np_exp np_log).
Local Abbreviation turn := (env_turn uniform call_sampler call_logpdf np_exp np_log).
Local Abbreviation run_draw :=
  (env_draw uniform call_sampler call_logpdf np_exp np_log).
Local Abbreviation run_loop :=
  (env_sample_loop uniform call_sampler call_logpdf np_exp np_log
     size_one_converts).
Local Abbreviation run_sample :=
  (env_sample seed_state uniform call_sampler call_logpdf np_exp np_log
     size_one_converts).

Lemma env_turn_ok self g :
  interp_state env (draw_body self) g ≈ Ret (turn self g).
Proof.
  unfold draw_body, env_turn.
  rewrite interp_state_bind, interp_state_trigger. cbn. rewrite bind_ret_l.
  destruct (call_sampler (propose_func self) g) as [g1 x]. cbn.
  rewrite interp_state_bind, interp_state_trigger. cbn. rewrite bind_ret_l.
  destruct (call_logpdf (propose_logpdf self) x g1) as [g2 upper]. cbn.
  destruct (MIN <=? upper)%float.
  - rewrite interp_state_bind, interp_state_trigger. cbn.
    rewrite bind_ret_l. cbn.
    rewrite interp_state_bind, interp_state_trigger. cbn. rewrite bind_ret_l.
    destruct (uniform 0%float (np_exp upper) g2) as [g3 threshold]. cbn.
    rewrite interp_state_bind, interp_state_trigger. cbn.
    rewrite bind_ret_l. cbn.
    rewrite interp_state_bind, interp_state_trigger. cbn. rewrite bind_ret_l.
    destruct (call_logpdf (target_logpdf self) x g3) as [g4 v]. cbn.
    destruct (np_log threshold <? v)%float; rewrite interp_state_ret; reflexivity.
  - rewrite interp_state_ret. reflexivity.
Qed.

Lemma env_draw_ok fuel : forall self g o,
  run_draw fuel self g = Some o -> interp_state env (draw self) g ≈ Ret o.
Proof.
  induction fuel as [| fuel IH]; intros self g o H; [discriminate |].
  cbn in H. unfold draw. rewrite unfold_iter.
  rewrite interp_state_bind, env_turn_ok, bind_ret_l.
  destruct (turn self g) as [g' [[] | x]]; cbn.
  - rewrite interp_state_tau, tau_eutt. now apply IH.
  - injection H as <-. rewrite interp_state_ret. reflexivity.
Qed.

Lemma env_draw_diverges self g :
  (forall fuel, run_draw fuel self g = None) ->
  forall o, ~ Leaf o (interp_state env (draw self) g).
Proof.
  intros Hnone o Ho.
  apply (Leaf_interp_state_iter_inv env (fun _ : unit => draw_body self)
           (fun s => forall fuel, run_draw fuel self s = None)
           (fun _ => True) (fun _ => False) g tt) in Ho.
  - destruct o as [g' x]. now destruct Ho.
  - intros s [] Hs _ [s' lr] Hleaf.
    rewrite env_turn_ok in Hleaf. apply Leaf_Ret_inv in Hleaf.
    destruct lr as [[] | x]; cbn.
    + split; [| exact I]. intros fuel.
      specialize (Hs (S fuel)). cbn in Hs. now rewrite <- Hleaf in Hs.
    + specialize (Hs 1%nat). cbn in Hs. rewrite <- Hleaf in Hs. discriminate.
  - exact Hnone.
  - exact I.
Qed.

Lemma env_draw_mono fuel : forall fuel' self g o,
  (fuel <= fuel')%nat ->
  run_draw fuel self g = Some o -> run_draw fuel' self g = Some o.
Proof.
  induction fuel as [| fuel IH]; intros fuel' self g o Hle H; [discriminate |].
  destruct fuel' as [| fuel']; [lia |]. cbn in *.
  destruct (turn self g) as [g' [[] | x]]; [| exact H].
  apply IH; [lia | exact H].
Qed.

Lemma env_draw_set_samples fuel : forall self a g,
  run_draw fuel (set_samples self a) g = run_draw fuel self g.
Proof.
  induction fuel as [| fuel IH]; intros self a g; [reflexivity |].
  cbn. change (turn (set_samples self a) g) with (turn self g).
  destruct (turn self g) as [g' [[] | x]]; [apply IH | reflexivity].
Qed.

Lemma env_sample_loop_ok fuel idxs : forall self g o,
  run_loop fuel self idxs g = Some o ->
  interp_state env (sample_loop size_one_converts self idxs) g ≈ Ret o.
Proof.
  induction idxs as [| i rest IH]; intros self g o H; cbn in H |- *.
  - injection H as <-. rewrite interp_state_ret. reflexivity.
  - destruct (run_draw fuel self g) as [[g' x] |] eqn:Hd; [| discriminate].
    rewrite interp_state_bind, (env_draw_ok _ _ _ _ Hd), bind_ret_l. cbn.
    destruct (setitem_samples size_one_converts self i x) as [e | self'].
    + injection H as <-. rewrite interp_state_ret. reflexivity.
    + now apply IH.
Qed.

Lemma env_sample_ok fuel self n seed g o :
  run_sample fuel self n seed g = Some o ->
  interp_state env (sample size_one_converts self n seed) g ≈ Ret o.
Proof.
  unfold env_sample, sample. intros H.
  rewrite interp_state_bind.
  assert (Hseed :
    interp_state env
      match seed with
      | Some s => ITree.trigger (NpRandomSeed s)
      | None => Ret tt
      end g ≈ Ret (match seed with Some s => seed_state s | None => g end, tt)).
  { destruct seed; [rewrite interp_state_trigger | rewrite interp_state_ret];
      reflexivity. }
  rewrite Hseed, bind_ret_l. cbn [fst snd].
  destruct (run_draw fuel self _) as [[g' first] |] eqn:Hd; [| discriminate].
  rewrite interp_state_bind, (env_draw_ok _ _ _ _ Hd), bind_ret_l. cbn [fst snd].
  destruct (allocate n first) as [e | a].
  { injection H as <-. rewrite interp_state_ret. reflexivity. }
  destruct (setitem_samples size_one_converts (set_samples self (Some a)) 0 first)
    as [e | self1].
  { injection H as <-. rewrite interp_state_ret. reflexivity. }
  destruct (run_loop fuel self1 (xrange 1 n) g') as [[g'' [self2 oe]] |] eqn:Hloop;
    [| discriminate].
  rewrite interp_state_bind, (env_sample_loop_ok _ _ _ _ _ Hloop), bind_ret_l.
  cbn [fst snd].
  destruct oe as [e |]; injection H as <-; rewrite interp_state_ret; reflexivity.
Qed.

Lemma env_sample_loop_mono fuel fuel' idxs : forall self g o,
  (fuel <= fuel')%nat ->
  run_loop fuel self idxs g = Some o -> run_loop fuel' self idxs g = Some o.
Proof.
  induction idxs as [| i rest IH]; intros self g o Hle H; cbn in H |- *;
    [exact H |].
  destruct (run_draw fuel self g) as [[g' x] |] eqn:Hd; [| discriminate].
  rewrite (env_draw_mono _ _ _ _ _ Hle Hd).
  destruct (setitem_samples size_one_converts self i x) as [e | self'];
    [exact H | now apply IH].
Qed.

Section Terminating.

Variable self : RejectionSampler.

(** From every generator state some turn of [draw] accepts. *)
Hypothesis draw_accepts : forall g, exists fuel, run_draw fuel self g <> None.

Lemma env_sample_loop_terminates idxs : forall a g,
  exists fuel o, run_loop fuel (set_samples self a) idxs g = Some o.
Proof.
  induction idxs as [| i rest IH]; intros a g.
  - exists O. eexists. reflexivity.
  - destruct (draw_accepts g) as [fuel1 Hd].
    destruct (run_draw fuel1 self g) as [[g' x] |] eqn:Hd1; [| contradiction].
    destruct (setitem_samples size_one_converts (set_samples self a) i x)
      as [e | self'] eqn:Hset.
    + exists fuel1. eexists. cbn. now rewrite env_draw_set_samples, Hd1, Hset.
    + pose proof Hset as Hinr.
      apply setitem_samples_inr in Hinr as (a0 & a' & _ & _ & ->).
      rewrite set_samples_twice in Hset.
      destruct (IH (Some a') g') as (fuel2 & o & Hrest).
      exists (Nat.max fuel1 fuel2), o. cbn.
      rewrite env_draw_set_samples.
      rewrite (env_draw_mono fuel1 (Nat.max fuel1 fuel2) _ _ _ (Nat.le_max_l _ _) Hd1).
      rewrite Hset.
      exact (env_sample_loop_mono _ _ _ _ _ _ (Nat.le_max_r _ _) Hrest).
Qed.

Lemma env_sample_terminates n seed g :
  exists fuel o, run_sample fuel self n seed g = Some o.
Proof.
  unfold env_sample.
  set (g0 := match seed with Some s => seed_state s | None => g end).
  destruct (draw_accepts g0) as [fuel1 Hd].
  destruct (run_draw fuel1 self g0) as [[g' first] |] eqn:Hd1; [| contradiction].
  destruct (allocate n first) as [e | a] eqn:Halloc.
  { exists fuel1. eexists. now rewrite Hd1, Halloc. }
  destruct (setitem_samples size_one_converts (set_samples self (Some a)) 0 first)
    as [e | self1] eqn:Hset.
  { exists fuel1. eexists. now rewrite Hd1, Halloc, Hset. }
  pose proof Hset as Hinr.
  apply setitem_samples_inr in Hinr as (a0 & a' & _ & _ & ->).
  rewrite set_samples_twice in Hset.
  destruct (env_sample_loop_terminates (xrange 1 n) (Some a') g')
    as (fuel2 & [g'' [self2 oe]] & Hloop).
  exists (Nat.max fuel1 fuel2).
  rewrite (env_draw_mono fuel1 (Nat.max fuel1 fuel2) _ _ _ (Nat.le_max_l _ _) Hd1).
  rewrite Halloc, Hset.
  rewrite (env_sample_loop_mono _ _ _ _ _ _ (Nat.le_max_r _ _) Hloop).
  destruct oe; eexists; reflexivity.
Qed.

End Terminating.

End SeededRunFacts.

(** ** Two concrete environments *)

Lemma env_accepting_accepts (g : nat) :
  env_draw (fun _ _ g => (S g, 0x1p-1%float))
    (fun _ g => (g, VScalar 0x1p-1)) (fun _ _ g => (g, 0%float))
    (fun _ => 0x1p+0%float) (fun _ => (-0x1.62e42fefa39efp-1)%float)
    1 s0 g = Some (S g, VScalar 0x1p-1).
Proof. reflexivity. Qed.

Lemma env_below_floor_never_accepts fuel : forall g : nat,
  env_draw (fun _ _ g => (S g, 0x1p-1%float))
    (fun _ g => (g, VScalar 0x1p-1)) (fun _ _ g => (g, neg_infinity))
    (fun _ => 0x1p+0%float) (fun _ => (-0x1.62e42fefa39efp-1)%float)
    fuel s0 g = None.
Proof. induction fuel as [| fuel IH]; intros g; [reflexivity | exact (IH g)]. Qed.

(** * Further properties *)

(** ** [plot] *)

(** X1.  [plot] raises exactly when the sampler holds no buffer ("no
    samples yet") or holds a two-dimensional buffer with two columns or
    more ("dimensions great than 1 not supported"), and it raises before
    making any call: nothing has been evaluated or drawn on the axes. *)
Theorem plot_raises_before_any_call self x_min x_max y_max log e :
  exec (plot self x_min x_max y_max) log (inl e) <->
  log = [] /\
  (samples self = None /\ e = no_samples_yet \/
   exists a n d, samples self = Some a /\ shape a = [n; d] /\ (2 <= d)%nat /\
                 e = too_many_dimensions).
Proof.
  rewrite plot_exec. destruct (samples self) as [a |].
  - destruct (more_than_one_column a) eqn:Hcol.
    + apply more_than_one_column_shape in Hcol as (n & d & Hsh & Hd). split.
      * intros [-> [= <-]]. split; [reflexivity |]. right. now exists a, n, d.
      * intros [-> [[[=] _] | (a' & n' & d' & [= <-] & _ & _ & ->)]]. auto.
    + split; [intros [[=] _] |].
      intros [_ [[[=] _] | (a' & n & d & [= <-] & Hsh & Hd & _)]].
      assert (more_than_one_column a = true) as Hcol'
        by (apply more_than_one_column_shape; now exists n, d).
      congruence.
  - split.
    + intros [-> [= <-]]. auto.
    + intros [-> [[_ ->] | (a & _ & _ & [=] & _)]]. auto.
Qed.

(** X3.  [plot] never draws: of the callables of the sampler it calls
    only the two log-densities, each at scalars; it calls neither the
    proposal sampler nor the random generator, and it does not seed it. *)
Theorem plot_only_evaluates_densities self x_min x_max y_max log r :
  exec (plot self x_min x_max y_max) log r ->
  Forall (plot_call_ok self) log.
Proof.
  intros H. apply plot_exec in H. destruct (samples self) as [a |].
  - destruct (more_than_one_column a).
    + destruct H as [-> _]. constructor.
    + destruct H as (_ & X & Yp0 & Yp & Yt0 & Yt & _ & _ & ->).
      unfold plot_log.
      apply Forall_app. split; [now repeat constructor |].
      apply Forall_app. split; [apply logpdf_each_log_ok; now left |].
      apply Forall_app. split; [now repeat constructor |].
      apply Forall_app. split; [apply logpdf_each_log_ok; now right |].
      now repeat constructor.
  - destruct H as [-> _]. constructor.
Qed.

(** X3 on the sampler holding [old_buffer], with a grid of one point. *)
Lemma plot_only_evaluates_densities_witness :
  Forall (plot_call_ok s_old)
    (plot_log s_old old_buffer 0 0x1p+0 0x1p+0
       [0x1p-1%float] [0%float] [0x1p+0%float] [0%float] [0x1p+0%float]).
Proof.
  apply (plot_only_evaluates_densities s_old 0 0x1p+0 0x1p+0 _ (inr tt)).
  apply plot_exec. cbn. split; [reflexivity |].
  exists [0x1p-1%float], [0%float], [0x1p+0%float], [0%float], [0x1p+0%float].
  split; [reflexivity |]. split; reflexivity.
Defined.

(** ** [sample], then [plot] *)

(** X4.  After a call [sample(n, seed)] with [n >= 0], however it ended,
    [plot] never raises "no samples yet".  It raises "dimensions great
    than 1 not supported", before any call, exactly when the first draw of
    the batch was a sequence of two elements or more; otherwise it goes
    through and the histogram is that of the buffer the call left in the
    sampler, also when the batch failed. *)
Theorem plot_after_sample
  size_one_converts self n seed log self' r x_min x_max y_max :
  0 <= n ->
  exec (sample size_one_converts self n seed) log (self', r) ->
  exists log1 first log2 a,
    exec (draw self) log1 first /\ log = seed_log seed ++ log1 ++ log2 /\
    samples self' = Some a /\
    forall plog pr,
      exec (plot self' x_min x_max y_max) plog pr <->
      if wide first then plog = [] /\ pr = inl too_many_dimensions
      else
        pr = inr tt /\
        exists X Yp0 Yp Yt0 Yt,
          length Yp0 = length X /\ length Yt0 = length X /\
          plog = plot_log self' a x_min x_max y_max X Yp0 Yp Yt0 Yt.
Proof.
  intros Hn H.
  apply sample_leaves_buffer in H as ([log1 first] & ds & a & Hds & -> & -> & Hsh);
    [| exact Hn].
  inversion Hds as [| ? ? Hd _]; subst.
  exists log1, first, (draws_log ds), a.
  split; [exact Hd |]. split; [reflexivity |]. split; [reflexivity |].
  intros plog pr. rewrite plot_exec. cbn [samples set_samples].
  now rewrite (more_than_one_column_wide _ _ _ Hsh).
Qed.

(** X4 on the batch of one draw of the scalar 0.5. *)
Lemma plot_after_sample_witness :
  0 <= 1 /\
  exists log1 first log2 a,
    exec (draw s0) log1 first /\ log_half = seed_log None ++ log1 ++ log2 /\
    samples (set_samples s0 (Some (Arr1 [Some 0x1p-1%float]))) = Some a /\
    forall plog pr,
      exec (plot (set_samples s0 (Some (Arr1 [Some 0x1p-1%float]))) 0 0x1p+0 0x1p+0)
           plog pr <->
      if wide first then plog = [] /\ pr = inl too_many_dimensions
      else
        pr = inr tt /\
        exists X Yp0 Yp Yt0 Yt,
          length Yp0 = length X /\ length Yt0 = length X /\
          plog = plot_log (set_samples s0 (Some (Arr1 [Some 0x1p-1%float]))) a
                   0 0x1p+0 0x1p+0 X Yp0 Yp Yt0 Yt.
Proof.
  split; [lia |].
  apply (plot_after_sample false s0 1 None log_half _ (inr (Some (Arr1 [Some 0x1p-1%float])))).
  - lia.
  - apply sample_exec. exists [(log_half, VScalar 0x1p-1)]. split; [| split].
    + constructor; [| constructor]. apply exec_draw_half. repeat split.
    + reflexivity.
    + reflexivity.
Defined.

(** X5.  A batch that failed at a store leaves a buffer in which at least
    one item is still as [np.empty] left it; [sample] returned nothing, yet
    when that buffer has one column at most, [plot] does not raise: every
    one of its executions goes through and hands this buffer to the
    histogram, and it has such an execution for every grid and all values
    of the densities on it. *)
Theorem plot_after_failed_batch
  size_one_converts self n seed log self' e x_min x_max y_max :
  1 <= n ->
  exec (sample size_one_converts self n seed) log (self', inl e) ->
  exists a i,
    samples self' = Some a /\ (i < first_axis a)%nat /\
    getitem a i = Some (blank a) /\
    (more_than_one_column a = false ->
     (forall plog pr,
        exec (plot self' x_min x_max y_max) plog pr ->
        pr = inr tt /\
        In (Event (inr1 (AxesHist a 100 "#999999" "samples" true "#999999")) tt)
           plog) /\
     (forall X Yp0 Yp Yt0 Yt,
        length Yp0 = length X -> length Yt0 = length X ->
        exec (plot self' x_min x_max y_max)
             (plot_log self' a x_min x_max y_max X Yp0 Yp Yt0 Yt) (inr tt))).
Proof.
  intros Hn H. apply sample_exec in H as (ds & Hds & -> & Hrep).
  apply sample_replay_positive in Hrep; [| exact Hn].
  destruct Hrep as (first & rest & a0 & a' & _ & _ & Hsh0 & _ & -> & Hsh & _ & H).
  destruct H as [([=] & _) | (_ & ok & bad & _ & Hlen & _ & _ & Hblank)].
  exists a', (S (length ok)).
  assert (Hax : first_axis a' = Z.to_nat n).
  { apply (first_shape_first_axis _ n first). congruence. }
  split; [reflexivity |]. split; [lia |]. split.
  - rewrite (blank_shape _ _ Hsh). apply Hblank. lia.
  - intros Hcol. split.
    + intros plog pr H. apply plot_exec in H. cbn [samples set_samples] in H.
      rewrite Hcol in H.
      destruct H as (-> & X & Yp0 & Yp & Yt0 & Yt & _ & _ & ->).
      split; [reflexivity |]. unfold plot_log.
      apply in_or_app. right. apply in_or_app. right.
      apply in_or_app. right. apply in_or_app. right.
      right. left. reflexivity.
    + intros X Yp0 Yp Yt0 Yt Hp Ht.
      apply plot_exec. cbn [samples set_samples]. rewrite Hcol.
      split; [reflexivity |]. exists X, Yp0, Yp, Yt0, Yt. auto.
Qed.

(** X5 on the batch of three that fails at its second draw, plotted on a
    grid of one point. *)
Lemma plot_after_failed_batch_witness :
  1 <= 3 /\
  exists a i,
    samples (set_samples s0 (Some (Arr1 [Some 0x1p-1%float; None; None]))) = Some a /\
    (i < first_axis a)%nat /\
    getitem a i = Some (blank a) /\
    exec (plot (set_samples s0 (Some (Arr1 [Some 0x1p-1%float; None; None])))
               0 0x1p+0 0x1p+0)
         (plot_log (set_samples s0 (Some (Arr1 [Some 0x1p-1%float; None; None])))
            a 0 0x1p+0 0x1p+0
            [0x1p-1%float] [0%float] [0x1p+0%float] [0%float] [0x1p+0%float])
         (inr tt) /\
    (forall plog pr,
       exec (plot (set_samples s0 (Some (Arr1 [Some 0x1p-1%float; None; None])))
                  0 0x1p+0 0x1p+0) plog pr ->
       pr = inr tt /\
       In (Event (inr1 (AxesHist a 100 "#999999" "samples" true "#999999")) tt)
          plog).
Proof.
  split; [lia |].
  destruct (plot_after_failed_batch false s0 3 None (log_half ++ log_pair)
              (set_samples s0 (Some (Arr1 [Some 0x1p-1%float; None; None])))
              ValueError 0 0x1p+0 0x1p+0) as (a & i & Ha & Hi & Hblank & Hplot).
  - lia.
  - apply sample_exec.
    exists [(log_half, VScalar 0x1p-1); (log_pair, VSeq [0x1p+0; 0x1p+1]%float)].
    split; [| split].
    + repeat constructor; [apply exec_draw_half; repeat split | apply exec_draw_pair].
    + reflexivity.
    + reflexivity.
  - exists a, i. split; [exact Ha |]. split; [exact Hi |]. split; [exact Hblank |].
    injection Ha as <-. destruct (Hplot eq_refl) as [Hall Hsome].
    split; [| exact Hall]. apply Hsome; reflexivity.
Defined.

(** X15.  A sampler as [__init__] leaves it holds no buffer: [plot] on it
    raises "no samples yet" before any call.  That is still so after a
    call [sample(n, seed)] with [n < 0] on it, which draws once and fails
    at the allocation. *)
Theorem fresh_sampler_cannot_be_plotted
  size_one_converts (f q p : callable) x_min x_max y_max :
  (forall plog pr,
     exec (plot (init f q p) x_min x_max y_max) plog pr <->
     plog = [] /\ pr = inl no_samples_yet) /\
  (forall n seed log self' r,
     n < 0 ->
     exec (sample size_one_converts (init f q p) n seed) log (self', r) ->
     forall plog pr,
       exec (plot self' x_min x_max y_max) plog pr <->
       plog = [] /\ pr = inl no_samples_yet).
Proof.
  split.
  - intros plog pr. now rewrite plot_exec.
  - intros n seed log self' r Hn H plog pr.
    apply sample_exec in H as (ds & _ & _ & Hrep).
    apply (sample_replay_negative _ _ _ _ _ _ Hn) in Hrep as (_ & _ & -> & _).
    now rewrite plot_exec.
Qed.

(** X15 on [sample(-1)] on the sampler [s0]. *)
Lemma fresh_sampler_cannot_be_plotted_witness :
  -1 < 0 /\
  forall plog pr,
    exec (plot s0 0 0x1p+0 0x1p+0) plog pr <->
    plog = [] /\ pr = inl no_samples_yet.
Proof.
  split; [lia |].
  destruct (fresh_sampler_cannot_be_plotted false "q_sample" "q_logpdf" "p_logpdf"
              0 0x1p+0 0x1p+0) as [_ Hafter].
  apply (Hafter (-1) None log_half s0 (inl ValueError)); [lia |].
  apply sample_exec. exists [(log_half, VScalar 0x1p-1)]. split; [| split].
  - constructor; [| constructor]. apply exec_draw_half. repeat split.
  - reflexivity.
  - reflexivity.
Defined.

(** ** [sample] *)

(** X6.  [sample] calls [np.random.seed] exactly once when a seed is
    given, with that seed and before anything else, and never when the seed
    is [None]; [draw] never seeds. *)
Theorem sample_seeds_once_or_never size_one_converts self n seed log r :
  exec (sample size_one_converts self n seed) log r ->
  count_calls KSeed log = match seed with Some _ => 1%nat | None => O end /\
  exists rest,
    log = match seed with
          | Some s => Event (NpRandomSeed s) tt :: rest
          | None => rest
          end /\
    count_calls KSeed rest = O.
Proof.
  intros H. apply sample_exec in H as (ds & Hds & -> & _).
  assert (Hrest : count_calls KSeed (draws_log ds) = O).
  { apply count_calls_none. apply draws_no_seed_call in Hds.
    eapply Forall_impl; [| exact Hds].
    intros [X e x] Hev. now destruct e. }
  split.
  - rewrite count_calls_app, Hrest. now destruct seed.
  - exists (draws_log ds). split; [now destruct seed | exact Hrest].
Qed.

(** X6 on an unseeded batch of one draw. *)
Lemma sample_seeds_once_or_never_witness :
  count_calls KSeed log_half = O /\
  exists rest, log_half = rest /\ count_calls KSeed rest = O.
Proof.
  apply (sample_seeds_once_or_never false s0 1 None log_half
           (set_samples s0 (Some (Arr1 [Some 0x1p-1%float])),
            inr (Some (Arr1 [Some 0x1p-1%float])))).
  apply sample_exec. exists [(log_half, VScalar 0x1p-1)]. split; [| split].
  - constructor; [| constructor]. apply exec_draw_half. repeat split.
  - reflexivity.
  - reflexivity.
Defined.

(** X7.  For [n >= 0], [sample] does not depend on the buffer the sampler
    holds from an earlier call: with any other buffer in its place, or
    none, it has the same executions, with the same calls, the same
    outcome and the same sampler afterwards.  Nothing of an earlier batch
    is carried over into the new one. *)
Theorem sample_ignores_old_buffer size_one_converts self old n seed log o :
  0 <= n ->
  (exec (sample size_one_converts self n seed) log o <->
   exec (sample size_one_converts (set_samples self old) n seed) log o).
Proof.
  intros Hn. rewrite 2 sample_exec.
  assert (Hd : draw (set_samples self old) = draw self)
    by (apply draw_same_callables; repeat split).
  unfold draws_of. rewrite Hd.
  split; intros (ds & Hds & Hlog & Hrep); exists ds;
    (split; [exact Hds |]); (split; [exact Hlog |]);
    [rewrite sample_replay_frame | rewrite sample_replay_frame in Hrep];
    assumption.
Qed.

(** X7 on the batch of one draw, with and without [old_buffer]. *)
Lemma sample_ignores_old_buffer_witness :
  0 <= 1 /\
  (exec (sample false s0 1 None) log_half
        (set_samples s0 (Some (Arr1 [Some 0x1p-1%float])),
         inr (Some (Arr1 [Some 0x1p-1%float]))) <->
   exec (sample false (set_samples s0 (Some old_buffer)) 1 None) log_half
        (set_samples s0 (Some (Arr1 [Some 0x1p-1%float])),
         inr (Some (Arr1 [Some 0x1p-1%float])))).
Proof.
  split; [lia |].
  apply (sample_ignores_old_buffer false s0 (Some old_buffer) 1 None). lia.
Defined.

(** X8.  The number of draws of a batch: every execution of
    [sample(n, seed)] consists of the seeding, if any, and of completed
    draws, at least one and at most [max(1, n)]; when a buffer is returned
    there are exactly [n] of them, and [n >= 1]. *)
Theorem sample_makes_at_most_n_draws size_one_converts self n seed log self' r :
  exec (sample size_one_converts self n seed) log (self', r) ->
  exists ds,
    draws_of self ds /\ log = seed_log seed ++ draws_log ds /\
    (1 <= length ds)%nat /\ Z.of_nat (length ds) <= Z.max 1 n /\
    (forall buf, r = inr buf -> 1 <= n /\ Z.of_nat (length ds) = n).
Proof.
  intros H. apply sample_exec in H as (ds & Hds & -> & Hrep).
  exists ds. split; [exact Hds |]. split; [reflexivity |].
  assert (Hl : length ds = length (List.map snd ds))
    by (symmetry; apply length_map).
  rewrite Hl.
  apply sample_replay_inv in Hrep as (first & rest & -> & Hrep).
  cbn [length]. split; [lia |].
  destruct (allocate n first) as [e | a0].
  - destruct Hrep as (Hn & -> & _ & ->). split; [cbn; lia | discriminate].
  - destruct Hrep as (Hn & a' & _ & _ & Hrep).
    destruct (Z.eqb_spec n 0) as [-> | Hn0].
    + destruct Hrep as (-> & _ & ->). split; [cbn; lia | discriminate].
    + destruct Hrep as (_ & [(-> & Hlen & _) | (-> & ok & bad & -> & Hlen & _)]).
      * rewrite Hlen. split; [lia |]. intros _ _. lia.
      * rewrite length_app. cbn [length]. split; [lia | discriminate].
Qed.

(** X8 on the batch of three that fails at its second draw. *)
Lemma sample_makes_at_most_n_draws_witness :
  exists ds,
    draws_of s0 ds /\ log_half ++ log_pair = seed_log None ++ draws_log ds /\
    (1 <= length ds)%nat /\ Z.of_nat (length ds) <= Z.max 1 3 /\
    (forall buf, @inl exn (option ndarray) ValueError = inr buf ->
                 1 <= 3 /\ Z.of_nat (length ds) = 3).
Proof.
  apply (sample_makes_at_most_n_draws false s0 3 None (log_half ++ log_pair)
           (set_samples s0 (Some (Arr1 [Some 0x1p-1%float; None; None])))).
  apply sample_exec.
  exists [(log_half, VScalar 0x1p-1); (log_pair, VSeq [0x1p+0; 0x1p+1]%float)].
  split; [| split].
  - repeat constructor; [apply exec_draw_half; repeat split | apply exec_draw_pair].
  - reflexivity.
  - reflexivity.
Defined.

(** X9.  A returned buffer holds the draws of the batch in the order in
    which they were made: its item [i] is the stored form of the value
    the draw number [i] returned.  Every item has been assigned in full, so
    nothing of the memory [np.empty] left is returned, and every row has
    the width of the buffer. *)
Theorem returned_buffer_holds_draws_in_order
  size_one_converts self n seed log self' a :
  exec (sample size_one_converts self n seed) log (self', inr (Some a)) ->
  exists ds,
    draws_of self ds /\ log = seed_log seed ++ draws_log ds /\
    length ds = first_axis a /\
    forall i d, nth_error ds i = Some d ->
      exists it,
        getitem a i = Some it /\
        stored size_one_converts a (snd d) = Some it /\
        filled it = true /\ item_of a it = true.
Proof.
  intros H. apply sample_exec in H as (ds & Hds & -> & Hrep).
  exists ds. split; [exact Hds |]. split; [reflexivity |].
  pose proof Hrep as Hinv.
  apply sample_replay_inv in Hinv as (first & rest & Hxs & Hinv).
  destruct (allocate n first) as [e | a0] eqn:Halloc.
  { destruct Hinv as (_ & _ & _ & [=]). }
  destruct Hinv as (Hn & a' & _ & Hsh & Hinv).
  destruct (Z.eqb_spec n 0) as [-> | Hn0].
  { destruct Hinv as (_ & _ & [=]). }
  destruct Hinv as (H0 & [([= <-] & Hlen & Hitems) | ([=] & _)]).
  apply (allocate_ok size_one_converts) in Halloc as (_ & Hsh0 & Hfirst & _).
  assert (Hax : first_axis a = Z.to_nat n).
  { apply (first_shape_first_axis _ n first). congruence. }
  split.
  - assert (Hl : length ds = length (List.map snd ds))
      by (symmetry; apply length_map).
    rewrite Hl, Hxs. cbn [length]. lia.
  - intros i d Hd.
    assert (Hx : nth_error (first :: rest) i = Some (snd d)).
    { rewrite <- Hxs. now apply map_nth_error. }
    assert (Hst : exists it, getitem a i = Some it /\
                             stored size_one_converts a (snd d) = Some it).
    { rewrite (stored_shape size_one_converts _ _ (snd d) Hsh).
      destruct i as [| j]; cbn in Hx.
      - injection Hx as <-. exists (first_item first). auto.
      - apply Hitems in Hx as [Hfit Hget].
        apply (fits_stored size_one_converts a0 n first) in Hfit; [| exact Hsh0].
        destruct (stored size_one_converts a0 (snd d)) as [it |]; [| contradiction].
        exists it. auto. }
    destruct Hst as (it & Hget & Hst). exists it.
    split; [exact Hget |]. split; [exact Hst |].
    exact (stored_filled _ _ _ _ Hst).
Qed.

(** X9 on the batch of two draws of the scalar 0.5. *)
Lemma returned_buffer_holds_draws_in_order_witness :
  exists ds,
    draws_of s0 ds /\ log_half ++ log_half = seed_log None ++ draws_log ds /\
    length ds = first_axis (Arr1 [Some 0x1p-1%float; Some 0x1p-1%float]) /\
    forall i d, nth_error ds i = Some d ->
      exists it,
        getitem (Arr1 [Some 0x1p-1%float; Some 0x1p-1%float]) i = Some it /\
        stored false (Arr1 [Some 0x1p-1%float; Some 0x1p-1%float]) (snd d) = Some it /\
        filled it = true /\
        item_of (Arr1 [Some 0x1p-1%float; Some 0x1p-1%float]) it = true.
Proof.
  apply (returned_buffer_holds_draws_in_order false s0 2 None (log_half ++ log_half)
           (set_samples s0 (Some (Arr1 [Some 0x1p-1%float; Some 0x1p-1%float])))).
  apply sample_exec.
  exists [(log_half, VScalar 0x1p-1); (log_half, VScalar 0x1p-1)].
  split; [| split].
  - repeat constructor; apply exec_draw_half; repeat split.
  - reflexivity.
  - reflexivity.
Defined.

(** ** [draw] *)

(** X10.  What a completed draw costs: when its loop took [turns] turns,
    of which [tested] went on to the acceptance test, it called the
    proposal sampler [turns] times, the log-densities [turns + tested]
    times, and [np.exp], [np.random.uniform] and [np.log] [tested] times
    each, with [1 <= tested <= turns]; it never seeded the generator, and
    every uniform draw is from an interval that starts at 0. *)
Theorem draw_call_counts self log x :
  exec (draw self) log x ->
  exists turns tested,
    (1 <= tested <= turns)%nat /\
    count_calls KSampler log = turns /\
    count_calls KLogpdf log = (turns + tested)%nat /\
    count_calls KExp log = tested /\
    count_calls KUniform log = tested /\
    count_calls KLog log = tested /\
    count_calls KSeed log = O /\
    Forall (fun ev => forall low high,
              uniform_bounds ev = Some (low, high) -> low = 0%float) log.
Proof.
  intros H. apply draw_exec in H as (rej & acc & -> & _ & _ & Hacc & _).
  exists (S (length rej)), (S (tested_turns rej)).
  pose proof (tested_turns_le rej) as Hle.
  pose proof (turns_log_counts self rej) as Hrej. cbn zeta in Hrej.
  destruct Hrej as (Hs & Hl & He & Hu & Hg & Hd).
  destruct (attempt_log_counts self acc) as (Hs' & Hl' & He' & Hu' & Hg' & Hd').
  assert (Hone : tested_turns [acc] = 1%nat) by (destruct acc; [discriminate | reflexivity]).
  rewrite !count_calls_app, Hs, Hl, He, Hu, Hg, Hd, Hs', Hl', He', Hu', Hg', Hd', Hone.
  repeat split; try lia.
  apply Forall_app. split; [| apply attempt_log_uniform_from_zero].
  apply Forall_flat_map, Forall_forall. intros a _.
  apply attempt_log_uniform_from_zero.
Qed.

(** X10 on the draw that accepts at its first turn. *)
Lemma draw_call_counts_witness :
  exists turns tested,
    (1 <= tested <= turns)%nat /\
    count_calls KSampler log_half = turns /\
    count_calls KLogpdf log_half = (turns + tested)%nat /\
    count_calls KExp log_half = tested /\
    count_calls KUniform log_half = tested /\
    count_calls KLog log_half = tested /\
    count_calls KSeed log_half = O /\
    Forall (fun ev => forall low high,
              uniform_bounds ev = Some (low, high) -> low = 0%float) log_half.
Proof.
  apply (draw_call_counts s0 log_half (VScalar 0x1p-1)).
  apply exec_draw_half. repeat split.
Defined.

(** X11.  [draw] returns a candidate only from a turn in which its
    proposal log-density was a number, not NaN and not minus infinity, and
    its target log-density was neither NaN nor minus infinity: a candidate
    at which the target density is zero, or at which a log-density is
    undefined, is never returned.  The logarithm of the threshold of that
    turn was neither NaN nor plus infinity. *)
Theorem draw_returns_only_where_densities_are_defined self log x :
  exec (draw self) log x ->
  exists before upper e threshold log_threshold v,
    log = before ++
          attempt_log self (Tested x upper e threshold log_threshold v) /\
    is_nan upper = false /\ (upper =? neg_infinity)%float = false /\
    is_nan v = false /\ (v =? neg_infinity)%float = false /\
    is_nan log_threshold = false /\
    (log_threshold =? infinity)%float = false.
Proof.
  intros H. apply draw_exec in H as (rej & acc & -> & _ & Hguard & Hacc & <-).
  destruct acc as [x upper | x upper e threshold log_threshold v];
    [discriminate |].
  cbn in Hguard, Hacc.
  exists (flat_map (attempt_log self) rej), upper, e, threshold, log_threshold, v.
  split; [reflexivity |].
  apply leb_MIN_finite in Hguard as [Hnan Hinf].
  pose proof (ltb_not_nan _ _ Hacc) as [Hnl Hnv].
  repeat split; try assumption.
  - exact (eqb_neg_infinity_of_ltb _ _ Hacc).
  - exact (eqb_infinity_of_ltb _ _ Hacc).
Qed.

(** X11 on the draw that accepts at its first turn. *)
Lemma draw_returns_only_where_densities_are_defined_witness :
  exists before upper e threshold log_threshold v,
    log_half = before ++
      attempt_log s0 (Tested (VScalar 0x1p-1) upper e threshold log_threshold v) /\
    is_nan upper = false /\ (upper =? neg_infinity)%float = false /\
    is_nan v = false /\ (v =? neg_infinity)%float = false /\
    is_nan log_threshold = false /\
    (log_threshold =? infinity)%float = false.
Proof.
  apply (draw_returns_only_where_densities_are_defined s0 log_half (VScalar 0x1p-1)).
  apply exec_draw_half. repeat split.
Defined.

(** ** Termination *)

(** X12.  In a deterministic environment, the loop of [draw] returns at
    the first turn that accepts, with the candidate of that turn and the
    generator state the turn leaves; and when no turn ever accepts, it
    returns nothing: [draw] has no bound on its turns and runs forever. *)
Theorem draw_returns_at_first_accepting_turn
  (G : Type) (seed_state : Z -> G)
  (uniform : float -> float -> G -> G * float)
  (call_sampler : callable -> G -> G * value)
  (call_logpdf : callable -> value -> G -> G * float)
  (np_exp np_log : float -> float) self g :
  let env :=
    seeded_env seed_state uniform call_sampler call_logpdf np_exp np_log in
  let run_draw := env_draw uniform call_sampler call_logpdf np_exp np_log in
  (forall fuel o,
     run_draw fuel self g = Some o ->
     interp_state env (draw self) g ≈ Ret o) /\
  ((forall fuel, run_draw fuel self g = None) ->
   forall o, ~ Leaf o (interp_state env (draw self) g)).
Proof.
  intros env run_draw. split.
  - intros fuel o. apply env_draw_ok.
  - apply env_draw_diverges.
Qed.

(** X12 in an environment where every candidate is accepted, and in one
    where the proposal log-density is minus infinity everywhere. *)
Lemma draw_returns_at_first_accepting_turn_witness :
  interp_state env_accepting (draw s0) O ≈ Ret (1%nat, VScalar 0x1p-1) /\
  forall o, ~ Leaf o (interp_state env_below_floor (draw s0) O).
Proof.
  split.
  - apply (draw_returns_at_first_accepting_turn nat (fun _ => O)
             (fun _ _ g => (S g, 0x1p-1%float))
             (fun _ g => (g, VScalar 0x1p-1)) (fun _ _ g => (g, 0%float))
             (fun _ => 0x1p+0%float) (fun _ => (-0x1.62e42fefa39efp-1)%float)
             s0 O) with (fuel := 1%nat).
    reflexivity.
  - apply (draw_returns_at_first_accepting_turn nat (fun _ => O)
             (fun _ _ g => (S g, 0x1p-1%float))
             (fun _ g => (g, VScalar 0x1p-1)) (fun _ _ g => (g, neg_infinity))
             (fun _ => 0x1p+0%float) (fun _ => (-0x1.62e42fefa39efp-1)%float)
             s0 O).
    intros fuel. apply env_below_floor_never_accepts.
Defined.

(** X13.  [sample] terminates whenever its draws do: in a deterministic
    environment in which, from every generator state, some turn of [draw]
    accepts, [sample(n, seed)] returns its buffer or raises, for every [n]
    and every seed, and its outcome is the one computed by running each
    draw for a bounded number of turns. *)
Theorem sample_returns_when_draws_do
  (G : Type) (seed_state : Z -> G)
  (uniform : float -> float -> G -> G * float)
  (call_sampler : callable -> G -> G * value)
  (call_logpdf : callable -> value -> G -> G * float)
  (np_exp np_log : float -> float) size_one_converts self n seed g :
  (forall g', exists fuel,
     env_draw uniform call_sampler call_logpdf np_exp np_log fuel self g'
     <> None) ->
  exists fuel o,
    env_sample seed_state uniform call_sampler call_logpdf np_exp np_log
      size_one_converts fuel self n seed g = Some o /\
    interp_state
      (seeded_env seed_state uniform call_sampler call_logpdf np_exp np_log)
      (sample size_one_converts self n seed) g ≈ Ret o.
Proof.
  intros Hdraw.
  destruct (env_sample_terminates G seed_state uniform call_sampler call_logpdf
              np_exp np_log size_one_converts self Hdraw n seed g)
    as (fuel & o & Ho).
  exists fuel, o. split; [exact Ho |]. exact (env_sample_ok _ _ _ _ _ _ _ _ _ _ _ _ _ _ Ho).
Qed.

(** X13 on a seeded batch of two in the environment where every candidate
    is accepted. *)
Lemma sample_returns_when_draws_do_witness :
  exists fuel o,
    env_sample (fun _ => O) (fun _ _ g => (S g, 0x1p-1%float))
      (fun _ g => (g, VScalar 0x1p-1)) (fun _ _ g => (g, 0%float))
      (fun _ => 0x1p+0%float) (fun _ => (-0x1.62e42fefa39efp-1)%float)
      false fuel s0 2 (Some 42) 7%nat = Some o /\
    interp_state env_accepting (sample false s0 2 (Some 42)) 7%nat ≈ Ret o.
Proof.
  apply (sample_returns_when_draws_do nat (fun _ => O)
           (fun _ _ g => (S g, 0x1p-1%float))
           (fun _ g => (g, VScalar 0x1p-1)) (fun _ _ g => (g, 0%float))
           (fun _ => 0x1p+0%float) (fun _ => (-0x1.62e42fefa39efp-1)%float)
           false s0 2 (Some 42) 7%nat).
  intros g'. exists 1%nat. rewrite env_accepting_accepts. discriminate.
Defined.

(** X14.  [sample] draws before it does anything else with [n]: when the
    first draw, made from the generator state the seeding leaves, never
    accepts, [sample(n, seed)] neither returns nor raises, whatever [n]
    is, a negative [n] included. *)
Theorem sample_never_returns_when_first_draw_loops
  (G : Type) (seed_state : Z -> G)
  (uniform : float -> float -> G -> G * float)
  (call_sampler : callable -> G -> G * value)
  (call_logpdf : callable -> value -> G -> G * float)
  (np_exp np_log : float -> float) size_one_converts self n seed g :
  (forall fuel,
     env_draw uniform call_sampler call_logpdf np_exp np_log fuel self
       match seed with
       | Some s => seed_state s
       | None => g
       end = None) ->
  forall o,
    ~ Leaf o
      (interp_state
         (seeded_env seed_state uniform call_sampler call_logpdf np_exp np_log)
         (sample size_one_converts self n seed) g).
Proof.
  intros Hnone o Ho. unfold sample in Ho.
  rewrite interp_state_bind in Ho.
  apply Leaf_bind_inv in Ho as ([g0 u] & Hseed & Ho). cbn [fst snd] in Ho.
  assert (Hg0 : g0 = match seed with Some s => seed_state s | None => g end).
  { destruct seed.
    - rewrite interp_state_trigger in Hseed. cbn in Hseed.
      apply Leaf_Ret_inv in Hseed. congruence.
    - rewrite interp_state_ret in Hseed. apply Leaf_Ret_inv in Hseed. congruence. }
  subst g0. rewrite interp_state_bind in Ho.
  apply Leaf_bind_inv in Ho as (first & Hdraw & _).
  exact (env_draw_diverges _ _ _ _ _ _ _ _ _ Hnone first Hdraw).
Qed.

(** X14 on [sample(-1)] in the environment where the proposal log-density
    is minus infinity everywhere. *)
Lemma sample_never_returns_when_first_draw_loops_witness :
  env_draw (fun _ _ g => (S g, 0x1p-1%float))
    (fun _ g => (g, VScalar 0x1p-1)) (fun _ _ g => (g, neg_infinity))
    (fun _ => 0x1p+0%float) (fun _ => (-0x1.62e42fefa39efp-1)%float)
    3 s0 O = None /\
  forall o, ~ Leaf o (interp_state env_below_floor (sample false s0 (-1) None) O).
Proof.
  split; [reflexivity |].
  apply (sample_never_returns_when_first_draw_loops nat (fun _ => O)
           (fun _ _ g => (S g, 0x1p-1%float))
           (fun _ g => (g, VScalar 0x1p-1)) (fun _ _ g => (g, neg_infinity))
           (fun _ => 0x1p+0%float) (fun _ => (-0x1.62e42fefa39efp-1)%float)
           false s0 (-1) None O).
  intros fuel. apply env_below_floor_never_accepts.
Defined.
